(** * Study-Assistant frontend: chunking, relevance scoring, upload and chat state

    A shallow embedding of the algorithmic parts of the frontend:
    - [utils/fileHandlers.js]: [chunkText], [generateSummary],
      [findRelevantPassages], [validateFileType], [extractPdfText];
    - [components/Documents/DocumentUploader.jsx]: [handleFiles];
    - [pages/Chat.jsx]: [handleSendMessage].

    JavaScript strings are sequences of UTF-16 code units; numbers that the
    code uses as indices, lengths, sizes, scores and clock readings are
    integers and are modelled in [Z]. *)

From Stdlib Require Import ZArith NArith List String Ascii Bool Lia.
From Stdlib Require Import Sorted Permutation DecimalString DecimalZ.
Import ListNotations.
Open Scope Z_scope.

(* ===================================================================== *)
(** * JavaScript strings *)
(* ===================================================================== *)

Module JS.

(** A UTF-16 code unit. *)
Definition char := N.

Definition jsstring := list char.

(** Literals of the source, written in ASCII. *)
Definition js (s : string) : jsstring :=
  map N_of_ascii (list_ascii_of_string s).

(** [s.length] *)
Definition length (s : jsstring) : Z := Z.of_nat (List.length s).

(** [a === b] on strings. *)
Fixpoint str_eqb (a b : jsstring) : bool :=
  match a, b with
  | [], [] => true
  | x :: a', y :: b' => N.eqb x y && str_eqb a' b'
  | _, _ => false
  end.

(** [s.substring(a, b)]: both indices are clamped to [0, s.length] and
    swapped when [a > b]. *)
Definition clamp (s : jsstring) (i : Z) : Z := Z.max 0 (Z.min i (length s)).

Definition substring (s : jsstring) (a b : Z) : jsstring :=
  let a' := clamp s a in
  let b' := clamp s b in
  let lo := Z.min a' b' in
  let hi := Z.max a' b' in
  firstn (Z.to_nat (hi - lo)) (skipn (Z.to_nat lo) s).

(** [arr.join(sep)] on an array of strings. *)
Fixpoint join (sep : jsstring) (l : list jsstring) : jsstring :=
  match l with
  | [] => []
  | [x] => x
  | x :: rest => x ++ sep ++ join sep rest
  end.

(** [arr.includes(x)] on an array of strings. *)
Definition includes (l : list jsstring) (x : jsstring) : bool :=
  existsb (str_eqb x) l.

(** White space and line terminators: what [trim] strips and what the
    regular-expression class [\s] matches. *)
Definition isWhiteSpace (c : char) : bool :=
  ((9 <=? c) && (c <=? 13))%N
  || N.eqb c 32 || N.eqb c 160 || N.eqb c 5760
  || ((8192 <=? c) && (c <=? 8202))%N
  || N.eqb c 8232 || N.eqb c 8233 || N.eqb c 8239
  || N.eqb c 8287 || N.eqb c 12288 || N.eqb c 65279.

Fixpoint trimStart (s : jsstring) : jsstring :=
  match s with
  | [] => []
  | c :: s' => if isWhiteSpace c then trimStart s' else s
  end.

Definition trimEnd (s : jsstring) : jsstring := rev (trimStart (rev s)).

(** [s.trim()] *)
Definition trim (s : jsstring) : jsstring := trimEnd (trimStart s).

(** [s.startsWith(p)] *)
Fixpoint startsWith (p s : jsstring) : bool :=
  match p, s with
  | [], _ => true
  | x :: p', y :: s' => N.eqb x y && startsWith p' s'
  | _ :: _, [] => false
  end.

(** [s.includes(needle)] on strings. *)
Fixpoint strIncludes (s needle : jsstring) : bool :=
  startsWith needle s
  || match s with
     | [] => false
     | _ :: s' => strIncludes s' needle
     end.

(** [s.split(/\s+/)]: [cur] is the piece being read; [inRun] tells that the
    last code unit was white space, whose run has already ended a piece. *)
Fixpoint splitLoop (inRun : bool) (cur : jsstring) (s : jsstring) : list jsstring :=
  match s with
  | [] => [cur]
  | c :: s' =>
      if isWhiteSpace c then
        if inRun then splitLoop true cur s'
        else cur :: splitLoop true [] s'
      else splitLoop false (cur ++ [c]) s'
  end.

Definition splitWhitespace (s : jsstring) : list jsstring := splitLoop false [] s.

End JS.

Import JS.

(* ===================================================================== *)
(** * [chunkText] (utils/fileHandlers.js) *)
(* ===================================================================== *)

Module Chunk.

(** [['. ', '? ', '! ', '\n\n']] *)
Definition potentialBreaks : list jsstring :=
  [js ". "; js "? "; js "! "; [10%N; 10%N]].

(** The inner [for (const breakChar of potentialBreaks)] loop: does some
    break string end at position [i]? *)
Definition isBreakAt (text : jsstring) (i : Z) : bool :=
  existsb
    (fun breakChar => str_eqb (substring text (i - length breakChar) i) breakChar)
    potentialBreaks.

(** [i >= Math.max(startIndex + maxChunkSize * 0.8, startIndex)], for an
    integer [i].  The product with 0.8 is taken over the rationals; for the
    default [maxChunkSize = 1500] the floating-point product is exactly
    1200. *)
Definition geMinBreakPosition (startIndex maxChunkSize i : Z) : bool :=
  (5 * startIndex + 4 * maxChunkSize <=? 5 * i) && (startIndex <=? i).

(** [for (let i = endIndex; i >= minBreakPosition; i--)], returning the
    first [i] at which a break string ends.  [n] bounds the number of
    iterations. *)
Fixpoint findBreak (text : jsstring) (startIndex maxChunkSize : Z)
         (n : nat) (i : Z) : option Z :=
  match n with
  | O => None
  | S n' =>
      if geMinBreakPosition startIndex maxChunkSize i then
        if isBreakAt text i then Some i
        else findBreak text startIndex maxChunkSize n' (i - 1)
      else None
  end.

(** The value of [endIndex] when the chunk is extracted. *)
Definition chunkEnd (text : jsstring) (maxChunkSize startIndex : Z) : Z :=
  let endIndex := Z.min (startIndex + maxChunkSize) (length text) in
  if endIndex <? length text then
    match findBreak text startIndex maxChunkSize
                    (Z.to_nat (endIndex - startIndex + 1)) endIndex with
    | Some i => i
    | None => endIndex
    end
  else endIndex.

(** One iteration of the [while] loop: the chunk pushed and the next
    [startIndex]. *)
Definition chunkStep (text : jsstring) (maxChunkSize chunkOverlap startIndex : Z)
  : jsstring * Z :=
  let endIndex := chunkEnd text maxChunkSize startIndex in
  (substring text startIndex endIndex, endIndex - chunkOverlap).

(** [while (startIndex < text.length)], with [fuel] bounding the number of
    iterations: [None] means the loop is still running after [fuel]
    iterations. *)
Fixpoint chunkLoop (fuel : nat) (text : jsstring) (maxChunkSize chunkOverlap : Z)
         (startIndex : Z) (chunks : list jsstring) : option (list jsstring) :=
  if startIndex <? length text then
    match fuel with
    | O => None
    | S fuel' =>
        let '(chunk, next) := chunkStep text maxChunkSize chunkOverlap startIndex in
        chunkLoop fuel' text maxChunkSize chunkOverlap next (chunks ++ [chunk])
    end
  else Some chunks.

Definition chunkText (fuel : nat) (text : jsstring) (maxChunkSize chunkOverlap : Z)
  : option (list jsstring) :=
  if length text =? 0 then Some []
  else chunkLoop fuel text maxChunkSize chunkOverlap 0 [].

Definition defaultMaxChunkSize : Z := 1500.
Definition defaultChunkOverlap : Z := 100.

End Chunk.

(* ===================================================================== *)
(** * Documents and the uploader (components/Documents/DocumentUploader.jsx) *)
(* ===================================================================== *)

(** [String(n)] for an integer [n] (decimal digits, a leading minus sign for
    negative numbers). *)
Definition numberToString (n : Z) : jsstring :=
  js (DecimalString.NilZero.string_of_int (Z.to_int n)).

Definition mimePdf : jsstring := js "application/pdf".
Definition mimeDocx : jsstring :=
  js "application/vnd.openxmlformats-officedocument.wordprocessingml.document".

(** The browser's [File], as far as the uploader reads it. *)
Module File.
Record t := mk { name : jsstring; type : jsstring; size : Z }.
End File.

Module Document.
Record t := mk {
  id : jsstring;
  name : jsstring;
  type : jsstring;
  size : Z;
  uploadDate : jsstring;
  content : jsstring;
  pages : option Z   (* [None] is [null] *)
}.
End Document.

(** What the timer callback of one upload reads from its environment. *)
Module UploadEnv.
Record t := mk {
  now : Z;                  (* [Date.now()] *)
  randomSuffix : jsstring;  (* [Math.random().toString(36).substr(2, 9)] *)
  isoDate : jsstring;       (* [new Date().toISOString()] *)
  pageRoll : Z              (* [Math.floor(Math.random() * 20)] *)
}.
End UploadEnv.

Module Uploader.

Record State := mkState {
  documents : list Document.t;       (* DocumentContext *)
  uploadError : option jsstring;     (* rendered in an [Alert] when set *)
  isUploading : bool
}.

Definition allowedFileTypes : list jsstring := [mimePdf; mimeDocx].

(** [validateFileType] of utils/fileHandlers.js, with its default list. *)
Definition validateFileType (file : File.t) (allowedTypes : list jsstring) : bool :=
  includes allowedTypes (File.type file).

Definition placeholderContent : jsstring :=
  js "This is a placeholder for the actual document content. In a real application, this would be processed and stored by the backend.".

(** The object built in the timer callback. *)
Definition newDocument (file : File.t) (env : UploadEnv.t) : Document.t :=
  {| Document.id := numberToString (UploadEnv.now env) ++ UploadEnv.randomSuffix env;
     Document.name := File.name file;
     Document.type := File.type file;
     Document.size := File.size file;
     Document.uploadDate := UploadEnv.isoDate env;
     Document.content := placeholderContent;
     Document.pages :=
       if str_eqb (File.type file) mimePdf
       then Some (UploadEnv.pageRoll env + 5)
       else None |}.

(** The uploads started by one call: the files kept and the [documents]
    array the [then] callback closed over. *)
Record Pending := mkPending {
  validFiles : list File.t;
  captured : list Document.t
}.

(** The synchronous part of [handleFiles]. *)
Definition handleFiles (st : State) (files : list File.t) : State * option Pending :=
  let st1 := {| documents := documents st; uploadError := None; isUploading := true |} in
  let validFiles := filter (fun file => includes allowedFileTypes (File.type file)) files in
  if Nat.eqb (List.length validFiles) 0 then
    ({| documents := documents st1;
        uploadError := Some (js "Only PDF and Word documents are supported.");
        isUploading := false |}, None)
  else (st1, Some {| validFiles := validFiles; captured := documents st |}).

(** [validFiles.map(file => new Promise(...))]: the k-th file is resolved
    with the environment its own timer callback reads. *)
Fixpoint newDocuments (env : nat -> UploadEnv.t) (k : nat) (files : list File.t)
  : list Document.t :=
  match files with
  | [] => []
  | file :: rest => newDocument file (env k) :: newDocuments env (S k) rest
  end.

(** The [then] callback of [Promise.all]. *)
Definition uploadsSettled (env : nat -> UploadEnv.t) (st : State) (p : Pending) : State :=
  {| documents := captured p ++ newDocuments env 0 (validFiles p);
     uploadError := uploadError st;
     isUploading := false |}.

(** A call of [handleFiles] followed by the settlement of its uploads. *)
Definition upload (env : nat -> UploadEnv.t) (st : State) (files : list File.t) : State :=
  match handleFiles st files with
  | (st', None) => st'
  | (st', Some p) => uploadsSettled env st' p
  end.

End Uploader.

(* ===================================================================== *)
(** * Chat messages (pages/Chat.jsx) *)
(* ===================================================================== *)

Module ChatMessage.
Inductive Sender := user | bot.

Record Source := mkSource { document : jsstring; page : Z }.

Record t := mk {
  id : Z;
  sender : Sender;
  text : jsstring;
  timestamp : Z;            (* [new Date()], in milliseconds *)
  source : option Source    (* [None] is an absent or [null] source *)
}.
End ChatMessage.

(** What a handler of the chat page reads from its environment. *)
Module ChatEnv.
Record t := mk {
  now : Z;       (* [Date.now()] *)
  date : Z;      (* [new Date()] *)
  pageRoll : Z   (* [Math.floor(Math.random() * 5)] *)
}.
End ChatEnv.

Module Chat.
Import ChatMessage.

Record State := mkState {
  messages : list ChatMessage.t;
  activeDocument : option Document.t;
  (** the pending [setTimeout] callbacks, each with the [activeDocument]
      it closed over *)
  timers : list (option Document.t)
}.

Definition greeting (date : Z) : ChatMessage.t :=
  {| id := 1; sender := bot;
     text := js "Hello! I'm your study assistant. Ask me questions about your documents and I'll help you understand them better.";
     timestamp := date; source := None |}.

Definition initial (date : Z) : State :=
  {| messages := [greeting date]; activeDocument := None; timers := [] |}.

(** [handleDocumentSelect]; [None] is a falsy argument. *)
Definition handleDocumentSelect (env : ChatEnv.t) (st : State) (document : option Document.t)
  : State :=
  match document with
  | None => st
  | Some d =>
      {| messages := messages st ++
           [{| id := ChatEnv.now env; sender := bot;
               text := js "Now focusing on " ++ [34%N] ++ Document.name d ++ [34%N]
                       ++ js ". What would you like to know about this document?";
               timestamp := ChatEnv.date env; source := None |}];
         activeDocument := Some d;
         timers := timers st |}
  end.

(** [!text || !text.trim()] *)
Definition isBlank (text : jsstring) : bool :=
  match text with
  | [] => true
  | _ => match trim text with [] => true | _ => false end
  end.

Definition userMessage (env : ChatEnv.t) (text : jsstring) : ChatMessage.t :=
  {| id := ChatEnv.now env; sender := user; text := text;
     timestamp := ChatEnv.date env; source := None |}.

(** [handleSendMessage]: the user message is appended and the reply is
    scheduled. *)
Definition handleSendMessage (env : ChatEnv.t) (st : State) (text : jsstring) : State :=
  if isBlank text then st
  else {| messages := messages st ++ [userMessage env text];
          activeDocument := activeDocument st;
          timers := timers st ++ [activeDocument st] |}.

Definition botText (active : option Document.t) : jsstring :=
  js "I'm analyzing your question about "
  ++ match active with
     | Some d => Document.name d
     | None => js "your documents"
     end
  ++ js ". In a real implementation, this would be answered by the backend using RAG.".

(** The object built in the [setTimeout] callback. *)
Definition botResponse (env : ChatEnv.t) (active : option Document.t) : ChatMessage.t :=
  {| id := ChatEnv.now env + 1; sender := bot;
     text := botText active;
     timestamp := ChatEnv.date env;
     source := match active with
               | Some d => Some {| document := Document.name d;
                                   page := ChatEnv.pageRoll env + 1 |}
               | None => None
               end |}.

(** The oldest pending timer fires. *)
Definition timerFires (env : ChatEnv.t) (st : State) : State :=
  match timers st with
  | [] => st
  | active :: rest =>
      {| messages := messages st ++ [botResponse env active];
         activeDocument := activeDocument st;
         timers := rest |}
  end.

End Chat.

(* ===================================================================== *)
(** * [extractPdfText] (utils/fileHandlers.js) *)
(* ===================================================================== *)

Module Pdf.

(** A thrown value: an [Error] made by the code itself, or whatever the
    browser or pdf.js throws or rejects with. *)
Inductive JsError :=
| Error (message : jsstring)
| HostError (name message : jsstring).

Inductive Result (A : Type) :=
| Ok (a : A)
| Throw (e : JsError).
Arguments Ok {A} a.
Arguments Throw {A} e.

(** [console.error(label, error)] calls, oldest first. *)
Definition Console := list (jsstring * JsError).

(** Computations that may throw and may write to the console.  An awaited
    promise is its settled result. *)
Definition M (A : Type) := Console -> Result A * Console.

Definition ret {A} (a : A) : M A := fun c => (Ok a, c).

Definition bind {A B} (m : M A) (k : A -> M B) : M B :=
  fun c => match m c with
           | (Ok a, c') => k a c'
           | (Throw e, c') => (Throw e, c')
           end.

Definition throw {A} (e : JsError) : M A := fun c => (Throw e, c).

Definition await {A} (r : Result A) : M A := fun c => (r, c).

Definition tryCatch {A} (body : M A) (handler : JsError -> M A) : M A :=
  fun c => match body c with
           | (Ok a, c') => (Ok a, c')
           | (Throw e, c') => handler e c'
           end.

Definition consoleError (label : jsstring) (e : JsError) : M unit :=
  fun c => (Ok tt, c ++ [(label, e)]).

Notation "x <- m ;; k" := (bind m (fun x => k))
  (at level 61, m at next level, right associativity).
Notation "m ;;; k" := (bind m (fun _ => k))
  (at level 61, right associativity).

(** The pdf.js objects, as far as the code reads them. *)
Record TextItem := mkItem { str : jsstring }.
Record TextContent := mkContent { items : list TextItem }.
Record Page := mkPage { getTextContent : Result TextContent }.
Definition Info := list (jsstring * jsstring).
Record Metadata := mkMetadata { info : option Info }.
Record PDFDocument := mkPdf {
  numPages : Z;
  getMetadata : Result Metadata;
  getPage : Z -> Result Page
}.

Record File := mkFile { arrayBuffer : Result (list Byte.byte) }.

Record PageText := mkPageText { pageNumber : Z; text : jsstring }.

Record Extracted := mkExtracted {
  fullText : jsstring;          (* the [text] property of the result *)
  pages : list PageText;
  metadata : Info;
  extractedPages : Z            (* the [numPages] property of the result *)
}.

Definition extractLabel : jsstring := js "Error extracting text from PDF:".
Definition extractMessage : jsstring := js "Failed to extract text from PDF".

Section Extract.

(** [pdfjsLib.getDocument({ data }).promise] *)
Variable getDocument : list Byte.byte -> Result PDFDocument.

(** [for (let i = 1; i <= numPages; i++)]: [n] iterations are left, the
    next page is [i]. *)
Fixpoint readPages (pdf : PDFDocument) (n : nat) (i : Z) (acc : list PageText)
  : M (list PageText) :=
  match n with
  | O => ret acc
  | S n' =>
      page <- await (getPage pdf i) ;;
      textContent <- await (getTextContent page) ;;
      let pageText := join (js " ") (map str (items textContent)) in
      readPages pdf n' (i + 1) (acc ++ [{| pageNumber := i; text := pageText |}])
  end.

Definition extractPdfText (file : File) : M Extracted :=
  tryCatch
    (buffer <- await (arrayBuffer file) ;;
     pdf <- await (getDocument buffer) ;;
     let metadata := match getMetadata pdf with
                     | Ok m => m
                     | Throw _ => {| info := None |}
                     end in
     let numPages := numPages pdf in
     pages <- readPages pdf (Z.to_nat numPages) 1 [] ;;
     ret {| fullText := join (js " ") (map text pages);
            pages := pages;
            metadata := match info metadata with Some i => i | None => [] end;
            extractedPages := numPages |})
    (fun error =>
       consoleError extractLabel error ;;;
       throw (Error extractMessage)).

End Extract.

End Pdf.

(* ===================================================================== *)
(** * [generateSummary] (utils/fileHandlers.js) *)
(* ===================================================================== *)

Module Summary.

(** The class [[\.!\?]]. *)
Definition isTerminator (c : char) : bool :=
  N.eqb c 46 || N.eqb c 33 || N.eqb c 63.

(** Where the scan of [/[^\.!\?]+[\.!\?]+/g] stands: before a sentence, in
    its run of other characters, or in its run of terminators. *)
Inductive Phase := Outside | InBody | InEnd.

(** [text.match(/[^\.!\?]+[\.!\?]+/g) || []].  A match is a maximal run of
    non-terminators followed by a maximal run of terminators; terminators
    with no text before them and a last run with no terminator after it are
    in no match. *)
Fixpoint scanSentences (phase : Phase) (cur : jsstring) (s : jsstring)
  : list jsstring :=
  match s with
  | [] => match phase with
          | InEnd => [cur]
          | _ => []
          end
  | c :: s' =>
      if isTerminator c then
        match phase with
        | Outside => scanSentences Outside [] s'
        | _ => scanSentences InEnd (cur ++ [c]) s'
        end
      else
        match phase with
        | InEnd => cur :: scanSentences InBody [c] s'
        | _ => scanSentences InBody (cur ++ [c]) s'
        end
  end.

Definition sentences (text : jsstring) : list jsstring :=
  scanSentences Outside [] text.

(** [for (const sentence of sentences)] with its [break]. *)
Fixpoint summarize (sentences : list jsstring) (maxLength : Z)
         (summary : jsstring) (currentLength : Z) : jsstring :=
  match sentences with
  | [] => summary
  | sentence :: rest =>
      if currentLength + length sentence <=? maxLength then
        summarize rest maxLength (summary ++ sentence) (currentLength + length sentence)
      else summary
  end.

Definition generateSummary (text : jsstring) (maxLength : Z) : jsstring :=
  summarize (sentences text) maxLength [] 0.

Definition defaultMaxLength : Z := 500.

End Summary.

(* ===================================================================== *)
(** * [findRelevantPassages] (utils/fileHandlers.js) *)
(* ===================================================================== *)

Module Passages.

Record Passage := mkPassage { text : jsstring; score : Z }.

(** The function returns its array or throws the [SyntaxError] of a
    [RegExp] constructor, remembered with the pattern. *)
Inductive Outcome (A : Type) :=
| Returns (a : A)
| ThrowsSyntaxError (pattern : jsstring).
Arguments Returns {A} a.
Arguments ThrowsSyntaxError {A} pattern.

Section Host.

(** [String.prototype.toLowerCase] *)
Variable toLowerCase : jsstring -> jsstring.

(** Compiled regular expressions; [RegExp pattern] is
    [new RegExp(pattern, 'gi')], [None] when the constructor throws a
    [SyntaxError]; [matchAll r s] is [s.match(r) || []]. *)
Variable regex : Type.
Variable RegExp : jsstring -> option regex.
Variable matchAll : regex -> jsstring -> list jsstring.

(** [for (const word of queryWords)]: the score of one chunk before the
    boost. *)
Fixpoint scoreWords (queryWords : list jsstring) (chunkLower : jsstring) (score : Z)
  : Outcome Z :=
  match queryWords with
  | [] => Returns score
  | word :: rest =>
      if 3 <? length word then
        match RegExp word with
        | None => ThrowsSyntaxError word
        | Some r =>
            scoreWords rest chunkLower
                       (score + Z.of_nat (List.length (matchAll r chunkLower)))
        end
      else scoreWords rest chunkLower score
  end.

(** The callback of [textChunks.map]. *)
Definition scoreChunk (queryWords : list jsstring) (chunk : jsstring) : Outcome Passage :=
  let chunkLower := toLowerCase chunk in
  match scoreWords queryWords chunkLower 0 with
  | ThrowsSyntaxError w => ThrowsSyntaxError w
  | Returns score =>
      let containsAllWords :=
        forallb (fun word => strIncludes chunkLower word)
                (filter (fun word => 3 <? length word) queryWords) in
      Returns {| text := chunk;
                 score := if containsAllWords then score * 2 else score |}
  end.

(** [textChunks.map(...)]: the first callback that throws ends the call. *)
Fixpoint mapChunks (queryWords : list jsstring) (textChunks : list jsstring)
  : Outcome (list Passage) :=
  match textChunks with
  | [] => Returns []
  | chunk :: rest =>
      match scoreChunk queryWords chunk with
      | ThrowsSyntaxError w => ThrowsSyntaxError w
      | Returns item =>
          match mapChunks queryWords rest with
          | ThrowsSyntaxError w => ThrowsSyntaxError w
          | Returns items => Returns (item :: items)
          end
      end
  end.

(** [.sort((a, b) => b.score - a.score)]: a stable sort by decreasing
    score.  [insertByScore] puts an item before the first one whose score is
    not greater. *)
Fixpoint insertByScore (item : Passage) (sorted : list Passage) : list Passage :=
  match sorted with
  | [] => [item]
  | other :: rest =>
      if score item <? score other then other :: insertByScore item rest
      else item :: sorted
  end.

Fixpoint sortByScore (items : list Passage) : list Passage :=
  match items with
  | [] => []
  | item :: rest => insertByScore item (sortByScore rest)
  end.

Definition findRelevantPassages (query : jsstring) (textChunks : list jsstring)
  : Outcome (list Passage) :=
  let queryWords := splitWhitespace (toLowerCase query) in
  match mapChunks queryWords textChunks with
  | ThrowsSyntaxError w => ThrowsSyntaxError w
  | Returns items => Returns (sortByScore (filter (fun item => 0 <? score item) items))
  end.

End Host.

End Passages.

(* ===================================================================== *)
(** * A sample host for running the model *)
(* ===================================================================== *)

(** A stand-in for the browser on the inputs of the examples: lower-casing of
    ASCII letters, and [new RegExp(pattern, 'gi')] for patterns made of plain
    characters and parentheses.  Parentheses that do not balance are the
    [SyntaxError] of the browser ("Unterminated group", "Unmatched ')'");
    balanced ones group without changing what is matched.  Patterns with any
    other metacharacter are outside the sample, which rejects them. *)
Module SampleHost.

Definition lowerChar (c : char) : char :=
  if ((65 <=? c) && (c <=? 90))%N then (c + 32)%N else c.

Definition toLowerCase (s : jsstring) : jsstring := map lowerChar s.

(** The metacharacters other than parentheses: backslash, caret, dollar,
    dot, star, plus, question mark, brackets, braces and bar. *)
Definition otherMeta (c : char) : bool :=
  existsb (N.eqb c) [92; 94; 36; 46; 42; 43; 63; 91; 93; 123; 125; 124]%N.

Fixpoint groupsBalanced (depth : nat) (pattern : jsstring) : bool :=
  match pattern with
  | [] => Nat.eqb depth 0
  | c :: rest =>
      if N.eqb c 40 then groupsBalanced (S depth) rest
      else if N.eqb c 41 then
             match depth with
             | O => false
             | S d => groupsBalanced d rest
             end
           else groupsBalanced depth rest
  end.

(** A compiled pattern: the characters to find, in lower case. *)
Definition regex := jsstring.

Definition RegExp (pattern : jsstring) : option regex :=
  if existsb otherMeta pattern then None
  else if groupsBalanced 0 pattern then
         Some (toLowerCase
                 (filter (fun c => negb (N.eqb c 40 || N.eqb c 41)) pattern))
       else None.

Fixpoint startsWithIgnoreCase (p s : jsstring) : bool :=
  match p, s with
  | [], _ => true
  | x :: p', y :: s' => N.eqb (lowerChar x) (lowerChar y) && startsWithIgnoreCase p' s'
  | _ :: _, [] => false
  end.

(** The successive matches, left to right and not overlapping; [skip] code
    units of the last match are still to be passed.  An empty pattern matches
    at every position, the end included. *)
Fixpoint matchFrom (r : regex) (s : jsstring) (skip : nat) : list jsstring :=
  match s with
  | [] => match r with
          | [] => [[]]
          | _ => []
          end
  | _ :: s' =>
      match skip with
      | S k => matchFrom r s' k
      | O =>
          if startsWithIgnoreCase r s
          then firstn (List.length r) s :: matchFrom r s' (List.length r - 1)
          else matchFrom r s' 0
      end
  end.

Definition matchAll (r : regex) (s : jsstring) : list jsstring := matchFrom r s 0.

Definition findRelevantPassages :=
  Passages.findRelevantPassages toLowerCase regex RegExp matchAll.

End SampleHost.

(* ===================================================================== *)
(** * File kinds (utils/fileHandlers.js) *)
(* ===================================================================== *)

Module FileKinds.

(** [isPdf] *)
Definition isPdf (file : File.t) : bool := str_eqb (File.type file) mimePdf.

(** [isDocx] *)
Definition isDocx (file : File.t) : bool := str_eqb (File.type file) mimeDocx.

End FileKinds.

(* ===================================================================== *)
(** * The input boxes of the chat (components/chat) *)
(* ===================================================================== *)

Module ChatInterface.

(** The state of [ChatInterface]. *)
Record State := mkState {
  inputValue : jsstring;
  isTyping : bool
}.

(** [handleSend] of [ChatInterface]; [onSendMessage] is the page's
    [handleSendMessage].  A non-empty string is truthy. *)
Definition handleSend (env : ChatEnv.t) (ui : State) (chat : Chat.State)
  : State * Chat.State :=
  match trim (inputValue ui) with
  | [] => (ui, chat)
  | _ :: _ =>
      ({| inputValue := []; isTyping := true |},
       Chat.handleSendMessage env chat (inputValue ui))
  end.

(** The callback of the typing timer. *)
Definition typingTimerFires (ui : State) : State :=
  {| inputValue := inputValue ui; isTyping := false |}.

End ChatInterface.

Module ChatInput.

(** [handleSend] of [ChatInput], on its [message] state and its [disabled]
    property. *)
Definition handleSend (env : ChatEnv.t) (disabled : bool) (message : jsstring)
           (chat : Chat.State) : jsstring * Chat.State :=
  match trim message with
  | [] => (message, chat)
  | _ :: _ =>
      if disabled then (message, chat)
      else ([], Chat.handleSendMessage env chat message)
  end.

End ChatInput.

(* ===================================================================== *)
(** * [extractDocxText] and [createDocumentThumbnail] (utils/fileHandlers.js) *)
(* ===================================================================== *)

Module Docx.
Import Pdf.

(** What [doc.getProperties()] holds; [None] is a missing or falsy
    property.  Dates are milliseconds. *)
Record Properties := mkProperties {
  title : option jsstring;
  creator : option jsstring;
  createdAt : option Z;
  modifiedAt : option Z
}.

(** The object made by [new Document(arrayBuffer)], as far as the code
    calls it. *)
Record WordDocument := mkWord {
  getText : Result jsstring;
  getProperties : Result (option Properties)   (* [None] is a falsy result *)
}.

Record DocxMetadata := mkDocxMetadata {
  metaTitle : jsstring;
  metaAuthor : jsstring;
  metaCreatedAt : Z;
  metaModifiedAt : Z
}.

Record DocxExtracted := mkDocxExtracted {
  docxText : jsstring;
  docxMetadata : DocxMetadata
}.

Definition docxLabel : jsstring := js "Error extracting text from Word document:".
Definition docxMessage : jsstring := js "Failed to extract text from Word document".

Definition emptyProperties : Properties :=
  {| title := None; creator := None; createdAt := None; modifiedAt := None |}.

(** [a || b] where [a] may be missing. *)
Definition orElse {A} (a : option A) (b : A) : A :=
  match a with
  | Some x => x
  | None => b
  end.

Section Extract.

(** [new Document(arrayBuffer)] *)
Variable newDocument : list Byte.byte -> Result WordDocument.

(** [now1] and [now2] are what the two [new Date()] give, where they are
    evaluated. *)
Definition extractDocxText (now1 now2 : Z) (file : File) : M DocxExtracted :=
  tryCatch
    (buffer <- await (arrayBuffer file) ;;
     doc <- await (newDocument buffer) ;;
     content <- await (getText doc) ;;
     found <- await (getProperties doc) ;;
     let properties := orElse found emptyProperties in
     ret {| docxText := content;
            docxMetadata :=
              {| metaTitle := orElse (title properties) [];
                 metaAuthor := orElse (creator properties) [];
                 metaCreatedAt := orElse (createdAt properties) now1;
                 metaModifiedAt := orElse (modifiedAt properties) now2 |} |})
    (fun error =>
       consoleError docxLabel error ;;;
       throw (Error docxMessage)).

End Extract.

End Docx.

Module Thumbnail.
Import Pdf.

(** A browser [File]: its description and its content. *)
Record BrowserFile := mkBrowserFile { info : File.t; data : File }.

Record Viewport := mkViewport { height : Z; width : Z }.

Definition thumbnailLabel : jsstring := js "Error creating PDF thumbnail:".

Section Host.

Variable getDocument : list Byte.byte -> Result PDFDocument.

(** The canvas and its 2d context, as the browser hands them out. *)
Variable Canvas : Type.
Variable Context : Type.

(** [page.getViewport({ scale: 0.5 })] *)
Variable getViewport : Page -> Result Viewport.
(** [document.createElement('canvas')] *)
Variable createCanvas : Result Canvas.
(** [canvas.getContext('2d')] *)
Variable getContext : Canvas -> Result Context.
(** [canvas.height = ...; canvas.width = ...] *)
Variable resize : Canvas -> Z -> Z -> Canvas.
(** [page.render({ canvasContext, viewport }).promise] *)
Variable render : Page -> Context -> Viewport -> Result unit.
(** [canvas.toDataURL('image/png')], once the page is rendered *)
Variable toDataURL : Canvas -> Result jsstring.

(** [None] is [null]. *)
Definition createDocumentThumbnail (file : BrowserFile) : M (option jsstring) :=
  if FileKinds.isPdf (info file) then
    tryCatch
      (buffer <- await (arrayBuffer (data file)) ;;
       pdf <- await (getDocument buffer) ;;
       page <- await (getPage pdf 1) ;;
       viewport <- await (getViewport page) ;;
       canvas <- await createCanvas ;;
       context <- await (getContext canvas) ;;
       let canvas := resize canvas (height viewport) (width viewport) in
       await (render page context viewport) ;;;
       url <- await (toDataURL canvas) ;;
       ret (Some url))
      (fun error =>
         consoleError thumbnailLabel error ;;;
         ret None)
  else ret None.

End Host.

End Thumbnail.

(* ===================================================================== *)
(** * [getFileExtension] (utils/fileHandlers.js) *)
(* ===================================================================== *)

Module Extension.

(** [s.lastIndexOf(c)] for a one-character [c]: [found] is the last index
    seen so far, [i] the index of the head of [s]. *)
Fixpoint lastIndexFrom (c : char) (s : jsstring) (i : Z) (found : Z) : Z :=
  match s with
  | [] => found
  | x :: s' => lastIndexFrom c s' (i + 1) (if N.eqb x c then i else found)
  end.

Definition lastIndexOf (s : jsstring) (c : char) : Z := lastIndexFrom c s 0 (-1).

(** [x >>> 0]: the integer [x] as an unsigned 32-bit number. *)
Definition toUint32 (x : Z) : Z := x mod 2 ^ 32.

(** [s.slice(start)] *)
Definition slice (s : jsstring) (start : Z) : jsstring :=
  let from := if start <? 0 then Z.max (length s + start) 0
              else Z.min start (length s) in
  skipn (Z.to_nat from) s.

Definition dot : char := 46%N.

(** [filename.slice((filename.lastIndexOf('.') - 1 >>> 0) + 2)] *)
Definition getFileExtension (filename : jsstring) : jsstring :=
  slice filename (toUint32 (lastIndexOf filename dot - 1) + 2).

End Extension.

(* ===================================================================== *)
(** * [detectLanguage] (utils/fileHandlers.js) *)
(* ===================================================================== *)

Module Language.

(** The class [\w]. *)
Definition isWordChar (c : char) : bool :=
  (((48 <=? c) && (c <=? 57)) || ((65 <=? c) && (c <=? 90))
   || N.eqb c 95 || ((97 <=? c) && (c <=? 122)))%N.

(** [s.match(/\b\w+\b/g) || []]: the maximal runs of word characters;
    [cur] is the run being read. *)
Fixpoint wordRuns (cur : jsstring) (s : jsstring) : list jsstring :=
  match s with
  | [] => match cur with
          | [] => []
          | _ :: _ => [cur]
          end
  | c :: s' =>
      if isWordChar c then wordRuns (cur ++ [c]) s'
      else match cur with
           | [] => wordRuns [] s'
           | _ :: _ => cur :: wordRuns [] s'
           end
  end.

(** The object [languageMarkers], as its entries in key order. *)
Definition languageMarkers : list (jsstring * list jsstring) :=
  [ (js "en", map js ["the"; "and"; "of"; "to"; "in"; "is"; "it"; "you"; "that"; "was"]%string);
    (js "es", map js ["el"; "la"; "de"; "en"; "y"; "es"; "que"; "un"; "por"; "para"]%string);
    (js "fr", map js ["le"; "la"; "de"; "et"; "est"; "en"; "que"; "un"; "pour"; "dans"]%string);
    (js "de", map js ["der"; "die"; "und"; "den"; "von"; "zu"; "das"; "mit"; "sich"; "auf"]%string) ].

(** The object [matches], as its entries in key order. *)
Definition Matches := list (jsstring * Z).

(** [Object.keys(languageMarkers).reduce(...)]: every language at 0. *)
Definition initialMatches : Matches :=
  map (fun entry => (fst entry, 0)) languageMarkers.

(** [matches[lang]++] for a key that is there. *)
Fixpoint increment (lang : jsstring) (matches : Matches) : Matches :=
  match matches with
  | [] => []
  | (key, n) :: rest =>
      if str_eqb key lang then (key, n + 1) :: rest
      else (key, n) :: increment lang rest
  end.

(** [for (const [lang, markers] of Object.entries(languageMarkers))] for one
    word. *)
Fixpoint countWord (word : jsstring) (entries : list (jsstring * list jsstring))
         (matches : Matches) : Matches :=
  match entries with
  | [] => matches
  | (lang, markers) :: rest =>
      countWord word rest
                (if includes markers word then increment lang matches else matches)
  end.

(** [for (const word of words)] *)
Fixpoint countWords (words : list jsstring) (matches : Matches) : Matches :=
  match words with
  | [] => matches
  | word :: rest => countWords rest (countWord word languageMarkers matches)
  end.

(** [for (const [lang, score] of Object.entries(matches))] *)
Fixpoint pickBest (entries : Matches) (bestMatch : jsstring) (highestScore : Z)
  : jsstring :=
  match entries with
  | [] => bestMatch
  | (lang, score) :: rest =>
      if highestScore <? score then pickBest rest lang score
      else pickBest rest bestMatch highestScore
  end.

Section Host.

(** [String.prototype.toLowerCase] *)
Variable toLowerCase : jsstring -> jsstring.

Definition detectLanguage (text : jsstring) : jsstring :=
  let matches := initialMatches in
  let words := wordRuns [] (toLowerCase text) in
  pickBest (countWords words matches) (js "en") 0.

End Host.

End Language.

(* ===================================================================== *)
(** * [extractKeywords] (utils/fileHandlers.js) *)
(* ===================================================================== *)

Module Keywords.

Definition stopWords : list jsstring :=
  map js ["a"; "an"; "the"; "and"; "or"; "but"; "is"; "are"; "was"; "were";
          "to"; "of"; "in"; "for"; "with"; "on"; "at"; "from"; "by"; "about";
          "as"; "into"; "like"; "through"; "after"; "over"; "between"; "out";
          "this"; "that"; "these"; "those"; "it"; "its"; "we"; "they"; "he"; "she"]%string.

(** [.replace(/[^\w\s]/g, '')] *)
Definition removePunctuation (s : jsstring) : jsstring :=
  filter (fun c => Language.isWordChar c || isWhiteSpace c) s.

(** The callback of [.filter]. *)
Definition keepWord (word : jsstring) : bool :=
  (3 <? length word) && negb (includes stopWords word).

(** A property value of [wordFrequency]: a count, or the string that comes
    out of adding 1 to something that is no number. *)
Inductive Frequency :=
| Count (n : Z)
| NotANumber.

(** The property names every object inherits from [Object.prototype]. *)
Definition inheritedNames : list jsstring :=
  map js ["constructor"; "hasOwnProperty"; "isPrototypeOf"; "propertyIsEnumerable";
          "toLocaleString"; "toString"; "valueOf"; "__defineGetter__";
          "__defineSetter__"; "__lookupGetter__"; "__lookupSetter__";
          "__proto__"]%string.

Definition protoName : jsstring := js "__proto__".

(** The own properties of [wordFrequency], in the order of their
    creation. *)
Definition Frequencies := list (jsstring * Frequency).

(** [v + 1] *)
Definition addOne (v : Frequency) : Frequency :=
  match v with
  | Count n => Count (n + 1)
  | NotANumber => NotANumber
  end.

(** [wordFrequency[word] = (wordFrequency[word] || 0) + 1] for a [word]
    other than "__proto__".  A count is at least 1, so an own property is
    always truthy; where there is none, an inherited property is read, which
    is an object or a function. *)
Fixpoint bump (word : jsstring) (freq : Frequencies) : Frequencies :=
  match freq with
  | [] => [(word, if includes inheritedNames word then NotANumber else Count 1)]
  | (key, v) :: rest =>
      if str_eqb key word then (key, addOne v) :: rest
      else (key, v) :: bump word rest
  end.

(** [for (const word of words)].  Reading "__proto__" gives the prototype
    and writing a string to it is ignored: no property is made. *)
Fixpoint tally (words : list jsstring) (freq : Frequencies) : Frequencies :=
  match words with
  | [] => freq
  | word :: rest =>
      tally rest (if str_eqb word protoName then freq else bump word freq)
  end.

Definition isDigit (c : char) : bool := ((48 <=? c) && (c <=? 57))%N.

(** The number a string of digits denotes. *)
Fixpoint digitsValue (acc : N) (s : jsstring) : N :=
  match s with
  | [] => acc
  | c :: s' => digitsValue (10 * acc + (c - 48))%N s'
  end.

(** A property name that is an array index: the decimal notation, without
    leading zero, of a number up to 2^32 - 2. *)
Definition isArrayIndex (key : jsstring) : bool :=
  match key with
  | [] => false
  | c :: rest =>
      forallb isDigit key
      && (negb (N.eqb c 48) || match rest with [] => true | _ :: _ => false end)
      && (digitsValue 0 key <=? 4294967294)%N
  end.

(** Array-index names by increasing value. *)
Fixpoint insertIndex (entry : jsstring * Frequency) (sorted : Frequencies) : Frequencies :=
  match sorted with
  | [] => [entry]
  | other :: rest =>
      if (digitsValue 0 (fst entry) <? digitsValue 0 (fst other))%N
      then entry :: sorted
      else other :: insertIndex entry rest
  end.

Fixpoint sortIndices (entries : Frequencies) : Frequencies :=
  match entries with
  | [] => []
  | entry :: rest => insertIndex entry (sortIndices rest)
  end.

(** [Object.entries(wordFrequency)]: the array-index names in increasing
    order, then the other names in the order of their creation. *)
Definition entriesOf (freq : Frequencies) : Frequencies :=
  sortIndices (filter (fun entry => isArrayIndex (fst entry)) freq)
  ++ filter (fun entry => negb (isArrayIndex (fst entry))) freq.

(** [b[1] - a[1] < 0], that is, [a] goes first; a difference with a value
    that is no number is NaN, which [sort] takes for 0. *)
Definition goesBefore (a b : jsstring * Frequency) : bool :=
  match snd a, snd b with
  | Count x, Count y => y <? x
  | _, _ => false
  end.

(** The comparator orders the entries consistently when all values are
    counts, or when it never tells two entries apart. *)
Definition isCount (v : Frequency) : bool :=
  match v with
  | Count _ => true
  | NotANumber => false
  end.

Definition consistentComparator (entries : Frequencies) : bool :=
  forallb (fun entry => isCount (snd entry)) entries
  || forallb (fun a => forallb (fun b => negb (goesBefore a b)) entries) entries.

(** [.sort((a, b) => b[1] - a[1])], a stable sort: an entry goes before the
    first of the following ones it does not have to follow. *)
Fixpoint insertByFrequency (entry : jsstring * Frequency) (sorted : Frequencies)
  : Frequencies :=
  match sorted with
  | [] => [entry]
  | other :: rest =>
      if goesBefore other entry then other :: insertByFrequency entry rest
      else entry :: sorted
  end.

Fixpoint sortByFrequency (entries : Frequencies) : Frequencies :=
  match entries with
  | [] => []
  | entry :: rest => insertByFrequency entry (sortByFrequency rest)
  end.

(** [arr.slice(0, end)] *)
Definition sliceTo {A} (l : list A) (stop : Z) : list A :=
  let upto := if stop <? 0 then Z.max (Z.of_nat (List.length l) + stop) 0
              else Z.min stop (Z.of_nat (List.length l)) in
  firstn (Z.to_nat upto) l.

Definition defaultMaxKeywords : Z := 10.

Section Host.

(** [String.prototype.toLowerCase] *)
Variable toLowerCase : jsstring -> jsstring.

(** The array [words]. *)
Definition wordsOf (text : jsstring) : list jsstring :=
  filter keepWord (splitWhitespace (removePunctuation (toLowerCase text))).

(** [None]: the comparator is inconsistent and the order of the result is
    left to the engine. *)
Definition extractKeywords (text : jsstring) (maxKeywords : Z)
  : option (list jsstring) :=
  let wordFrequency := tally (wordsOf text) [] in
  let entries := entriesOf wordFrequency in
  if consistentComparator entries then
    Some (map fst (sliceTo (sortByFrequency entries) maxKeywords))
  else None.

End Host.

End Keywords.

(* ===================================================================== *)
(** * Facts about strings *)
(* ===================================================================== *)

Module JSFacts.

Lemma str_eqb_eq a b : str_eqb a b = true <-> a = b.
Proof.
  revert b; induction a as [|x a IH]; intros [|y b]; simpl; split;
    try congruence; try reflexivity.
  - intros H. apply andb_true_iff in H as [Hx Hab].
    apply N.eqb_eq in Hx. apply IH in Hab. congruence.
  - intros H. injection H as -> ->. rewrite N.eqb_refl. simpl. now apply IH.
Qed.

Lemma str_eqb_refl a : str_eqb a a = true.
Proof. now apply str_eqb_eq. Qed.

Lemma length_nonneg s : 0 <= length s.
Proof. unfold length. lia. Qed.

Lemma length_app a b : length (a ++ b) = length a + length b.
Proof. unfold length. rewrite List.length_app. lia. Qed.

Lemma length_zero_iff s : length s = 0 <-> s = [].
Proof.
  unfold length. destruct s; simpl; split; try congruence; try lia.
Qed.

Lemma trimStart_nil_iff s :
  trimStart s = [] <-> forallb isWhiteSpace s = true.
Proof.
  induction s as [|c s IH]; simpl.
  - split; reflexivity.
  - destruct (isWhiteSpace c); simpl.
    + exact IH.
    + split; discriminate.
Qed.

Lemma trimStart_forallb s :
  forallb isWhiteSpace (trimStart s) = true -> trimStart s = [].
Proof.
  induction s as [|c s IH]; simpl; [reflexivity|].
  destruct (isWhiteSpace c) eqn:Hc; [exact IH|].
  simpl. rewrite Hc. discriminate.
Qed.

Lemma forallb_rev {A} (f : A -> bool) l : forallb f (rev l) = forallb f l.
Proof.
  induction l as [|x l IH]; simpl; [reflexivity|].
  rewrite forallb_app, IH. simpl. rewrite andb_true_r. apply andb_comm.
Qed.

Lemma trimEnd_nil_iff s :
  trimEnd s = [] <-> forallb isWhiteSpace s = true.
Proof.
  unfold trimEnd. rewrite <- (forallb_rev isWhiteSpace s), <- trimStart_nil_iff.
  split; intros H.
  - apply (f_equal (@rev char)) in H. now rewrite rev_involutive in H.
  - now rewrite H.
Qed.

(** [s.trim()] is empty exactly when every code unit of [s] is white
    space. *)
Lemma trim_nil_iff s :
  trim s = [] <-> forallb isWhiteSpace s = true.
Proof.
  unfold trim. rewrite trimEnd_nil_iff. split; intros H.
  - apply trimStart_forallb in H. now apply trimStart_nil_iff.
  - apply trimStart_nil_iff in H. now rewrite H.
Qed.

End JSFacts.

Import JSFacts.

(* ===================================================================== *)
(** * Properties of [chunkText] *)
(* ===================================================================== *)

Module ChunkFacts.
Import Chunk.

(** The iteration bound of [findBreak] is never the reason it stops: when
    the bound is reached the loop guard is already false. *)
Lemma findBreak_bound_enough text s m n i :
  i - s < Z.of_nat n ->
  findBreak text s m n i = None ->
  forall j, j <= i -> geMinBreakPosition s m j = true -> isBreakAt text j = false.
Proof.
  revert i; induction n as [|n IH]; intros i Hn Hf j Hj Hg.
  - unfold geMinBreakPosition in Hg. apply andb_true_iff in Hg as [_ Hg].
    apply Z.leb_le in Hg. simpl in Hn. lia.
  - simpl in Hf. destruct (geMinBreakPosition s m i) eqn:Hgi.
    + destruct (isBreakAt text i) eqn:Hb; [discriminate|].
      destruct (Z.eq_dec j i) as [->|Hne]; [assumption|].
      apply (IH (i - 1)); try assumption; lia.
    + exfalso. unfold geMinBreakPosition in *.
      apply andb_true_iff in Hg as [Hg1 Hg2].
      apply Z.leb_le in Hg1. apply Z.leb_le in Hg2.
      apply andb_false_iff in Hgi as [Hgi|Hgi]; apply Z.leb_gt in Hgi; lia.
Qed.

Lemma findBreak_le text s m n i r :
  findBreak text s m n i = Some r -> r <= i.
Proof.
  revert i; induction n as [|n IH]; intros i; simpl; [discriminate|].
  destruct (geMinBreakPosition s m i); [|discriminate].
  destruct (isBreakAt text i).
  - intros [= ->]. lia.
  - intros H. apply IH in H. lia.
Qed.

(** [endIndex] never passes the end of the text. *)
Lemma chunkEnd_le_length text m s : chunkEnd text m s <= length text.
Proof.
  unfold chunkEnd.
  destruct (Z.min (s + m) (length text) <? length text) eqn:Hlt.
  - apply Z.ltb_lt in Hlt.
    destruct (findBreak _ _ _ _ _) eqn:Hf.
    + apply findBreak_le in Hf. lia.
    + lia.
  - lia.
Qed.

(** With a positive overlap the loop guard [startIndex < text.length] is
    re-established by every iteration. *)
Lemma chunkStep_next_lt text m ov s :
  0 < ov -> snd (chunkStep text m ov s) < length text.
Proof.
  intros Hov. unfold chunkStep. simpl.
  pose proof (chunkEnd_le_length text m s). lia.
Qed.

Lemma chunkLoop_diverges fuel text m ov :
  0 < ov ->
  forall s chunks, s < length text ->
  chunkLoop fuel text m ov s chunks = None.
Proof.
  intros Hov. induction fuel as [|fuel IH]; intros s chunks Hs;
    cbn [chunkLoop]; apply Z.ltb_lt in Hs; rewrite Hs.
  - reflexivity.
  - pose proof (chunkStep_next_lt text m ov s Hov) as Hn.
    destruct (chunkStep text m ov s) as [chunk next]. cbn [snd] in Hn.
    now apply IH.
Qed.

(** The model does return when the loop exits: without overlap a short
    text is one chunk. *)
Example chunkText_no_overlap_returns :
  chunkText 5 (js "Hello. World") 1500 0 = Some [js "Hello. World"].
Proof. vm_compute. reflexivity. Qed.

(** A chunk ends at a sentence break found in its last fifth. *)
Example chunkText_breaks_at_sentence :
  chunkText 20 (js "Hello. World is big. Yes") 8 0
  = Some [js "Hello. "; js "World is"; js " big. Ye"; js "s"].
Proof. vm_compute. reflexivity. Qed.

(** From the second iteration on, the start index of a one-character text
    stays at [-99]. *)
Example chunkStep_stuck :
  snd (chunkStep (js "a") 1500 100 0) = -99 /\
  snd (chunkStep (js "a") 1500 100 (-99)) = -99.
Proof. vm_compute. split; reflexivity. Qed.

(** C1 (fails on the code): for every non-empty text and the default
    parameters (1500, 100), the loop of [chunkText] is still running after
    any number of iterations, so the function never returns its list of
    chunks. *)
Theorem chunkText_default_never_returns :
  forall (text : jsstring) (fuel : nat),
    text <> [] ->
    chunkText fuel text defaultMaxChunkSize defaultChunkOverlap = None.
Proof.
  intros text fuel Hne. unfold chunkText.
  destruct (length text =? 0) eqn:Hz.
  - apply Z.eqb_eq in Hz. apply length_zero_iff in Hz. contradiction.
  - apply Z.eqb_neq in Hz. pose proof (length_nonneg text).
    apply chunkLoop_diverges; unfold defaultChunkOverlap; lia.
Qed.

Lemma chunkText_default_never_returns_witness :
  js "a" <> [] /\
  chunkText 1000 (js "a") defaultMaxChunkSize defaultChunkOverlap = None.
Proof.
  split.
  - cbv. discriminate.
  - apply (chunkText_default_never_returns (js "a") 1000). cbv. discriminate.
Defined.

End ChunkFacts.

(* ===================================================================== *)
(** * Properties of the uploader *)
(* ===================================================================== *)

Module UploaderFacts.
Import Uploader.

Definition isAllowed (file : File.t) : bool :=
  includes allowedFileTypes (File.type file).

Lemma isAllowed_iff file :
  isAllowed file = true <->
  File.type file = mimePdf \/ File.type file = mimeDocx.
Proof.
  unfold isAllowed, includes, allowedFileTypes. cbn [existsb].
  rewrite !orb_true_iff, !str_eqb_eq. intuition congruence.
Qed.

Lemma newDocuments_length env k files :
  List.length (newDocuments env k files) = List.length files.
Proof.
  revert k; induction files as [|f files IH]; intros k; simpl; auto.
Qed.

Lemma newDocuments_In env files : forall k d,
  In d (newDocuments env k files) ->
  exists file j, In file files /\ d = newDocument file (env j).
Proof.
  induction files as [|f files IH]; intros k d; simpl; [tauto|].
  intros [<-|Hin].
  - exists f, k. auto.
  - destruct (IH _ _ Hin) as (file & j & Hf & ->). exists file, j. auto.
Qed.

(** The list after an upload: the documents there at the call, followed by
    one new document per allowed file, in the order of the files. *)
Lemma upload_documents env st files :
  documents (upload env st files)
  = documents st ++ newDocuments env 0 (filter isAllowed files).
Proof.
  unfold upload, handleFiles. fold isAllowed.
  destruct (filter isAllowed files) as [|f valid] eqn:Hv; simpl.
  - now rewrite app_nil_r.
  - reflexivity.
Qed.

Lemma filter_none {A} (f : A -> bool) l :
  (forall x, In x l -> f x = false) -> filter f l = [].
Proof.
  induction l as [|x l IH]; intros H; simpl; [reflexivity|].
  rewrite (H x (or_introl eq_refl)). apply IH. intros y Hy. apply H. now right.
Qed.

(** C4: when every file has a MIME type other than PDF and DOCX,
    [handleFiles] sets the alert string, starts no upload and leaves the
    document list as it was; and whatever the files are, a document added by
    an upload comes from a file whose MIME type is PDF or DOCX. *)
Theorem handleFiles_rejects_disallowed_types :
  forall (env : nat -> UploadEnv.t) (st : State) (files : list File.t),
    ((forall file, In file files ->
        File.type file <> mimePdf /\ File.type file <> mimeDocx) ->
     handleFiles st files =
       ({| documents := documents st;
           uploadError := Some (js "Only PDF and Word documents are supported.");
           isUploading := false |}, None)
     /\ documents (upload env st files) = documents st)
    /\
    (exists added,
        documents (upload env st files) = documents st ++ added
        /\ forall d, In d added ->
             exists file, In file files
               /\ (File.type file = mimePdf \/ File.type file = mimeDocx)
               /\ Document.name d = File.name file
               /\ Document.type d = File.type file).
Proof.
  intros env st files. split.
  - intros Hbad.
    assert (Hnone : filter isAllowed files = []).
    { apply filter_none. intros f Hf. destruct (isAllowed f) eqn:Ha; [|reflexivity].
      apply isAllowed_iff in Ha. destruct (Hbad f Hf). tauto. }
    split.
    + unfold handleFiles. fold isAllowed. now rewrite Hnone.
    + rewrite upload_documents, Hnone. apply app_nil_r.
  - exists (newDocuments env 0 (filter isAllowed files)). split.
    + apply upload_documents.
    + intros d Hd. apply newDocuments_In in Hd as (file & j & Hf & ->).
      apply filter_In in Hf as [Hf Ha]. apply isAllowed_iff in Ha.
      exists file. auto.
Qed.

Definition textFile : File.t :=
  {| File.name := js "notes.txt"; File.type := js "text/plain"; File.size := 12 |}.

Definition pdfFile : File.t :=
  {| File.name := js "paper.pdf"; File.type := mimePdf; File.size := 2048 |}.

Definition docxFile : File.t :=
  {| File.name := js "essay.docx"; File.type := mimeDocx; File.size := 512 |}.

Definition env0 (k : nat) : UploadEnv.t :=
  {| UploadEnv.now := 1700000000000; UploadEnv.randomSuffix := js "k3j9x0q1z";
     UploadEnv.isoDate := js "2023-11-14T22:13:20.000Z";
     UploadEnv.pageRoll := Z.of_nat k |}.

Definition emptyState : State :=
  {| documents := []; uploadError := None; isUploading := false |}.

Lemma handleFiles_rejects_disallowed_types_witness :
  handleFiles emptyState [textFile] =
    ({| documents := [];
        uploadError := Some (js "Only PDF and Word documents are supported.");
        isUploading := false |}, None)
  /\ documents (upload env0 emptyState [textFile]) = [].
Proof.
  apply (proj1 (handleFiles_rejects_disallowed_types env0 emptyState [textFile])).
  intros file [<-|[]]. split; vm_compute; discriminate.
Defined.

(** C8: a document created by an upload carries the file's name, MIME type
    and size, the upload timestamp and the fixed placeholder content; its page
    count is non-null exactly when the MIME type is 'application/pdf', and
    null for a DOCX file. *)
Theorem upload_creates_document_records :
  forall (env : nat -> UploadEnv.t) (st : State) (files : list File.t),
  exists created,
    documents (upload env st files) = documents st ++ created
    /\ Forall
         (fun d => exists file k,
            In file files
            /\ Document.name d = File.name file
            /\ Document.type d = File.type file
            /\ Document.size d = File.size file
            /\ Document.uploadDate d = UploadEnv.isoDate (env k)
            /\ Document.content d = placeholderContent
            /\ (Document.pages d <> None <-> Document.type d = mimePdf)
            /\ (Document.type d = mimeDocx -> Document.pages d = None))
         created.
Proof.
  intros env st files.
  exists (newDocuments env 0 (filter isAllowed files)). split.
  - apply upload_documents.
  - apply Forall_forall. intros d Hd.
    apply newDocuments_In in Hd as (file & j & Hf & ->).
    apply filter_In in Hf as [Hf _].
    exists file, j. repeat (split; [solve [auto]|]).
    unfold newDocument; cbn [Document.pages Document.type]. split.
    + destruct (str_eqb (File.type file) mimePdf) eqn:He.
      * apply str_eqb_eq in He. split; [auto|discriminate].
      * split; [congruence|]. intros Hp. apply str_eqb_eq in Hp. congruence.
    + intros ->. reflexivity.
Qed.

(** Two documents stamped with the same clock reading have the same
    identifier exactly when their random suffixes agree. *)
Lemma newDocument_id_same_clock file1 file2 e1 e2 :
  UploadEnv.now e1 = UploadEnv.now e2 ->
  (Document.id (newDocument file1 e1) = Document.id (newDocument file2 e2)
   <-> UploadEnv.randomSuffix e1 = UploadEnv.randomSuffix e2).
Proof.
  intros Hnow. unfold newDocument; cbn [Document.id]. rewrite Hnow. split.
  - apply app_inv_head.
  - now intros ->.
Qed.

(** A run of the model: one PDF and one DOCX file are kept, a text file is
    dropped. *)
Example upload_mixed_files :
  map (fun d => (Document.name d, Document.pages d))
      (documents (upload env0 emptyState [pdfFile; textFile; docxFile]))
  = [(js "paper.pdf", Some 5); (js "essay.docx", None)].
Proof. vm_compute. reflexivity. Qed.

End UploaderFacts.

(* ===================================================================== *)
(** * Properties of the chat page *)
(* ===================================================================== *)

Module ChatFacts.
Import ChatMessage Chat.

(** [!text || !text.trim()] holds exactly for the empty string and for
    strings made of white space only. *)
Lemma isBlank_true_iff text :
  isBlank text = true <-> forallb isWhiteSpace text = true.
Proof.
  unfold isBlank. destruct text as [|c text]; [simpl; tauto|].
  rewrite <- trim_nil_iff. destruct (trim (c :: text)); split; congruence.
Qed.

Lemma isBlank_false_iff text :
  isBlank text = false <-> exists c, In c text /\ isWhiteSpace c = false.
Proof.
  split.
  - intros Hb. destruct (forallb isWhiteSpace text) eqn:Hf.
    + apply isBlank_true_iff in Hf. congruence.
    + clear Hb. induction text as [|c text IH]; simpl in Hf; [discriminate|].
      destruct (isWhiteSpace c) eqn:Hc.
      * destruct (IH Hf) as (c' & Hin & Hc'). exists c'. simpl. auto.
      * exists c. simpl. auto.
  - intros (c & Hin & Hc). destruct (isBlank text) eqn:Hb; [|reflexivity].
    apply isBlank_true_iff in Hb. rewrite forallb_forall in Hb.
    specialize (Hb c Hin). congruence.
Qed.

(** C5: a text with at least one non-white-space character is appended as a
    user message at the end of the sequence, every earlier message keeping its
    position; an empty or white-space-only text leaves the state as it was. *)
Theorem handleSendMessage_appends :
  forall (env : ChatEnv.t) (st : State) (text : jsstring),
    ((exists c, In c text /\ isWhiteSpace c = false) ->
       exists m,
         messages (handleSendMessage env st text) = messages st ++ [m]
         /\ sender m = user
         /\ ChatMessage.text m = text
         /\ (forall i old, nth_error (messages st) i = Some old ->
               nth_error (messages (handleSendMessage env st text)) i = Some old)
         /\ nth_error (messages (handleSendMessage env st text))
                      (List.length (messages st)) = Some m)
    /\
    ((forall c, In c text -> isWhiteSpace c = true) ->
       handleSendMessage env st text = st).
Proof.
  intros env st text. split.
  - intros Hc. apply isBlank_false_iff in Hc.
    unfold handleSendMessage. rewrite Hc. cbn [messages].
    exists (userMessage env text). repeat split.
    + intros i old Hi. rewrite nth_error_app1; [assumption|].
      apply nth_error_Some. congruence.
    + rewrite nth_error_app2 by lia. now rewrite Nat.sub_diag.
  - intros Hws. unfold handleSendMessage.
    assert (Hb : isBlank text = true).
    { apply isBlank_true_iff, forallb_forall. exact Hws. }
    now rewrite Hb.
Qed.

Definition env1 : ChatEnv.t :=
  {| ChatEnv.now := 1700000000000; ChatEnv.date := 1700000000000;
     ChatEnv.pageRoll := 2 |}.

Lemma handleSendMessage_appends_witness :
  (exists m,
     messages (handleSendMessage env1 (initial 0) (js " hi ")) = messages (initial 0) ++ [m]
     /\ sender m = user
     /\ ChatMessage.text m = js " hi "
     /\ (forall i old, nth_error (messages (initial 0)) i = Some old ->
           nth_error (messages (handleSendMessage env1 (initial 0) (js " hi "))) i
           = Some old)
     /\ nth_error (messages (handleSendMessage env1 (initial 0) (js " hi ")))
                  (List.length (messages (initial 0))) = Some m)
  /\ handleSendMessage env1 (initial 0) (js "   ") = initial 0.
Proof.
  split.
  - apply (proj1 (handleSendMessage_appends env1 (initial 0) (js " hi "))).
    exists 104%N. split; [vm_compute; tauto | reflexivity].
  - apply (proj2 (handleSendMessage_appends env1 (initial 0) (js "   "))).
    intros c Hc. vm_compute in Hc.
    destruct Hc as [<-|[<-|[<-|[]]]]; reflexivity.
Defined.

(** ** Reply text and document content *)

(** Two documents that differ at most in their content string. *)
Definition differOnlyInContent (d1 d2 : Document.t) : Prop :=
  Document.id d1 = Document.id d2
  /\ Document.name d1 = Document.name d2
  /\ Document.type d1 = Document.type d2
  /\ Document.size d1 = Document.size d2
  /\ Document.uploadDate d1 = Document.uploadDate d2
  /\ Document.pages d1 = Document.pages d2.

Inductive optRel {A} (R : A -> A -> Prop) : option A -> option A -> Prop :=
| optRel_None : optRel R None None
| optRel_Some a b : R a b -> optRel R (Some a) (Some b).

(** Two chat states that show the same texts and whose documents (active,
    and closed over by pending timers) differ at most in content. *)
Record lowEq (s1 s2 : State) : Prop := mkLowEq {
  low_texts : map text (messages s1) = map text (messages s2);
  low_active : optRel differOnlyInContent (activeDocument s1) (activeDocument s2);
  low_timers : Forall2 (optRel differOnlyInContent) (timers s1) (timers s2)
}.

(** What happens on the chat page. *)
Inductive Event :=
| Send (env : ChatEnv.t) (text : jsstring)
| Select (env : ChatEnv.t) (document : option Document.t)
| TimerFires (env : ChatEnv.t).

Definition step (st : State) (ev : Event) : State :=
  match ev with
  | Send env text => handleSendMessage env st text
  | Select env document => handleDocumentSelect env st document
  | TimerFires env => timerFires env st
  end.

Definition run (st : State) (evs : list Event) : State := fold_left step evs st.

(** The same user actions in two sessions: the same texts are sent, the
    documents selected differ at most in content, clock and random numbers
    are unrelated. *)
Inductive sameActions : Event -> Event -> Prop :=
| same_Send e1 e2 text : sameActions (Send e1 text) (Send e2 text)
| same_Select e1 e2 d1 d2 :
    optRel differOnlyInContent d1 d2 -> sameActions (Select e1 d1) (Select e2 d2)
| same_Timer e1 e2 : sameActions (TimerFires e1) (TimerFires e2).

Lemma botText_content_independent a1 a2 :
  optRel differOnlyInContent a1 a2 -> botText a1 = botText a2.
Proof.
  intros [|d1 d2 (_ & Hn & _)]; unfold botText; [reflexivity|]. now rewrite Hn.
Qed.

Lemma step_lowEq s1 s2 ev1 ev2 :
  lowEq s1 s2 -> sameActions ev1 ev2 -> lowEq (step s1 ev1) (step s2 ev2).
Proof.
  destruct s1 as [m1 a1 t1], s2 as [m2 a2 t2].
  intros [Ht Ha Hp] Hev. cbn [messages activeDocument timers] in Ht, Ha, Hp.
  destruct Hev as [e1 e2 text | e1 e2 d1 d2 Hd | e1 e2]; cbn [step].
  - unfold handleSendMessage. destruct (isBlank text); [now constructor|].
    constructor; cbn [messages activeDocument timers].
    + rewrite !map_app, Ht. reflexivity.
    + assumption.
    + apply Forall2_app; [assumption|]. constructor; [assumption|constructor].
  - destruct Hd as [|d1 d2 Hd]; cbn [handleDocumentSelect]; [now constructor|].
    constructor; cbn [messages activeDocument timers].
    + rewrite !map_app, Ht. cbn [map text]. destruct Hd as (_ & Hn & _).
      now rewrite Hn.
    + now constructor.
    + assumption.
  - unfold timerFires. cbn [timers messages activeDocument].
    destruct Hp as [|b1 b2 r1 r2 Hact Hrest]; [now constructor|].
    constructor; cbn [messages activeDocument timers].
    + rewrite !map_app, Ht. cbn [map text botResponse].
      now rewrite (botText_content_independent b1 b2 Hact).
    + assumption.
    + assumption.
Qed.

Lemma run_lowEq evs1 evs2 :
  Forall2 sameActions evs1 evs2 ->
  forall s1 s2, lowEq s1 s2 -> lowEq (run s1 evs1) (run s2 evs2).
Proof.
  induction 1 as [|ev1 ev2 evs1 evs2 Hev _ IH]; intros s1 s2 Hs; simpl.
  - assumption.
  - apply IH. now apply step_lowEq.
Qed.

(** With no timer pending, the reply to a message is the message right
    after it, and its text is the fixed sentence around the name of the
    document that was active at the send. *)
Lemma reply_follows_message e e' st question :
  timers st = [] ->
  isBlank question = false ->
  messages (run st [Send e question; TimerFires e'])
  = messages st ++ [userMessage e question; botResponse e' (activeDocument st)]
  /\ text (botResponse e' (activeDocument st)) = botText (activeDocument st).
Proof.
  intros Ht Hb. split; [|reflexivity].
  cbn [run fold_left step]. unfold handleSendMessage. rewrite Hb.
  unfold timerFires. cbn [timers messages activeDocument]. rewrite Ht.
  cbn [app]. now rewrite <- app_assoc.
Qed.

(** C7: the reply text is a fixed sentence around the active document's
    name.  In two sessions whose documents differ only in their content
    strings and in which the same messages are sent, every message text, the
    bot replies included, is the same. *)
Theorem reply_text_independent_of_content :
  forall (s1 s2 : State) (evs1 evs2 : list Event),
    lowEq s1 s2 ->
    Forall2 sameActions evs1 evs2 ->
    map text (messages (run s1 evs1)) = map text (messages (run s2 evs2))
    /\ (forall e1 e2 question,
          map text (messages (run s1 (evs1 ++ [Send e1 question; TimerFires e1])))
          = map text (messages (run s2 (evs2 ++ [Send e2 question; TimerFires e2])))).
Proof.
  intros s1 s2 evs1 evs2 Hs Hev. split.
  - apply low_texts. now apply run_lowEq.
  - intros e1 e2 question. apply low_texts. apply run_lowEq; [|assumption].
    apply Forall2_app; [assumption|]. repeat constructor.
Qed.

Definition docA : Document.t :=
  {| Document.id := js "1700000000000k3j9x0q1z"; Document.name := js "paper.pdf";
     Document.type := mimePdf; Document.size := 2048;
     Document.uploadDate := js "2023-11-14T22:13:20.000Z";
     Document.content := js "Photosynthesis converts light into chemical energy.";
     Document.pages := Some 7 |}.

Definition docB : Document.t :=
  {| Document.id := js "1700000000000k3j9x0q1z"; Document.name := js "paper.pdf";
     Document.type := mimePdf; Document.size := 2048;
     Document.uploadDate := js "2023-11-14T22:13:20.000Z";
     Document.content := js "The French Revolution began in 1789.";
     Document.pages := Some 7 |}.

Definition sessionA : State :=
  {| messages := [greeting 0]; activeDocument := Some docA; timers := [] |}.

Definition sessionB : State :=
  {| messages := [greeting 5]; activeDocument := Some docB; timers := [] |}.

Definition env2 : ChatEnv.t :=
  {| ChatEnv.now := 1700000090000; ChatEnv.date := 1700000090001;
     ChatEnv.pageRoll := 4 |}.

Lemma reply_text_independent_of_content_witness :
  map text (messages (run sessionA [Send env1 (js "Why?"); TimerFires env1]))
  = map text (messages (run sessionB [Send env2 (js "Why?"); TimerFires env2])).
Proof.
  refine (proj1 (reply_text_independent_of_content sessionA sessionB
                   [Send env1 (js "Why?"); TimerFires env1]
                   [Send env2 (js "Why?"); TimerFires env2] _ _)).
  - constructor; cbn [messages activeDocument timers sessionA sessionB].
    + reflexivity.
    + constructor. unfold differOnlyInContent. repeat split; reflexivity.
    + constructor.
  - repeat constructor.
Defined.

(** The reply of the run above. *)
Example reply_to_sessionA :
  map text (skipn 2 (messages (run sessionA [Send env1 (js "Why?"); TimerFires env1])))
  = [js "I'm analyzing your question about paper.pdf. In a real implementation, this would be answered by the backend using RAG."].
Proof. vm_compute. reflexivity. Qed.

(** ** Identifiers *)

(** A document identifier is a string, a message identifier a number; [===]
    never identifies the two. *)
Inductive Id :=
| NumberId (n : Z)
| StringId (s : jsstring).

Definition messageIds (msgs : list ChatMessage.t) : list Id :=
  map (fun m => NumberId (id m)) msgs.

Definition documentIds (docs : list Document.t) : list Id :=
  map (fun d => StringId (Document.id d)) docs.

(** The identifiers of a session: those of the document list and those of
    the message sequence. *)
Definition sessionIds (docs : list Document.t) (st : State) : list Id :=
  documentIds docs ++ messageIds (messages st).

Lemma document_message_ids_differ docs msgs i :
  In i (documentIds docs) -> ~ In i (messageIds msgs).
Proof.
  unfold documentIds, messageIds. rewrite !in_map_iff.
  intros (d & <- & _) (m & Hm & _). discriminate.
Qed.

(** X28: a send whose clock reading is not yet an identifier of the
    sequence keeps the identifiers of the session distinct. *)
Lemma handleSendMessage_fresh_clock_unique docs env st question :
  NoDup (sessionIds docs st) ->
  ~ In (NumberId (ChatEnv.now env)) (messageIds (messages st)) ->
  NoDup (sessionIds docs (handleSendMessage env st question)).
Proof.
  intros Hnd Hfresh. unfold handleSendMessage.
  destruct (isBlank question); [assumption|].
  unfold sessionIds, messageIds in *. cbn [messages].
  rewrite map_app. cbn [map userMessage id]. rewrite app_assoc.
  apply NoDup_app_remove_r in Hnd as Hdocs.
  rewrite <- app_nil_r. apply NoDup_app.
  - apply NoDup_app.
    + exact Hnd.
    + repeat constructor. simpl. tauto.
    + intros i Hi [<-|[]]. apply in_app_or in Hi as [Hi|Hi].
      * unfold documentIds in Hi. apply in_map_iff in Hi as (d & Hd & _).
        discriminate.
      * contradiction.
  - constructor.
  - intros i _ [].
Qed.

(** Two sends that read the same clock value create the same identifier,
    whatever the texts. *)
Lemma same_clock_same_id env st q1 q2 :
  isBlank q1 = false -> isBlank q2 = false ->
  map id (messages (handleSendMessage env (handleSendMessage env st q1) q2))
  = map id (messages st) ++ [ChatEnv.now env; ChatEnv.now env].
Proof.
  intros H1 H2. unfold handleSendMessage. rewrite H1, H2. cbn [messages].
  rewrite <- app_assoc, map_app. reflexivity.
Qed.

(** C2 (fails on the code): two messages sent while [Date.now()] returns the
    same millisecond get the same identifier, so the identifiers of the
    message sequence are no longer distinct after the second send. *)
Theorem same_millisecond_sends_share_id :
  let st := handleSendMessage env1 (handleSendMessage env1 (initial 0) (js "first"))
                              (js "second") in
  map id (messages st) = [1; 1700000000000; 1700000000000]
  /\ NoDup (sessionIds [] (initial 0))
  /\ ~ NoDup (sessionIds [] st).
Proof.
  split; [vm_compute; reflexivity|]. split.
  - vm_compute. repeat constructor. simpl. tauto.
  - vm_compute. intros H. inversion H as [|x l Hx Hl]; subst.
    inversion Hl as [|y l' Hy Hl']; subst. apply Hy. left. reflexivity.
Qed.

End ChatFacts.

(* ===================================================================== *)
(** * Properties of [extractPdfText] *)
(* ===================================================================== *)

Module PdfFacts.
Import Pdf.

Section Extraction.

Variable getDocument : list Byte.byte -> Result PDFDocument.

Definition pageTextOf (i : Z) (content : TextContent) : PageText :=
  {| pageNumber := i; text := join (js " ") (map str (items content)) |}.

(** Pages [i], [i+1], ..., [i+n-1] can all be read; the list holds their
    texts in page order. *)
Inductive pagesReadable (pdf : PDFDocument) : Z -> nat -> list PageText -> Prop :=
| readable_done i : pagesReadable pdf i 0 []
| readable_next i n page content rest :
    getPage pdf i = Ok page ->
    getTextContent page = Ok content ->
    pagesReadable pdf (i + 1) n rest ->
    pagesReadable pdf i (S n) (pageTextOf i content :: rest).

(** Reading pages [i], ..., [i+n-1] in order stops at a page that cannot be
    fetched or whose text content cannot be read, with that error. *)
Inductive pageFailure (pdf : PDFDocument) : Z -> nat -> JsError -> Prop :=
| failure_getPage i n e :
    getPage pdf i = Throw e -> pageFailure pdf i (S n) e
| failure_getTextContent i n page e :
    getPage pdf i = Ok page ->
    getTextContent page = Throw e ->
    pageFailure pdf i (S n) e
| failure_later i n page content e :
    getPage pdf i = Ok page ->
    getTextContent page = Ok content ->
    pageFailure pdf (i + 1) n e ->
    pageFailure pdf i (S n) e.

(** Extraction fails with [cause]: the file cannot be read, pdf.js rejects
    the data, or a page cannot be read. *)
Inductive extractionFails (file : File) : JsError -> Prop :=
| fails_arrayBuffer e :
    arrayBuffer file = Throw e -> extractionFails file e
| fails_getDocument buffer e :
    arrayBuffer file = Ok buffer ->
    getDocument buffer = Throw e ->
    extractionFails file e
| fails_page buffer pdf e :
    arrayBuffer file = Ok buffer ->
    getDocument buffer = Ok pdf ->
    pageFailure pdf 1 (Z.to_nat (numPages pdf)) e ->
    extractionFails file e.

Lemma readPages_readable pdf n : forall i acc pgs console,
  pagesReadable pdf i n pgs ->
  readPages pdf n i acc console = (Ok (acc ++ pgs), console).
Proof.
  induction n as [|n IH]; intros i acc pgs console Hr;
    inversion Hr as [|? ? page content rest Hp Hc Hrest]; subst.
  - cbn. now rewrite app_nil_r.
  - cbn [readPages]. unfold bind at 1, await at 1. rewrite Hp.
    unfold bind at 1, await at 1. rewrite Hc.
    rewrite (IH _ _ _ _ Hrest). unfold pageTextOf. now rewrite <- app_assoc.
Qed.

Lemma readPages_failure pdf n : forall i acc e console,
  pageFailure pdf i n e ->
  readPages pdf n i acc console = (Throw e, console).
Proof.
  induction n as [|n IH]; intros i acc e console Hf;
    inversion Hf as [? ? ? Hp | ? ? page ? Hp Hc | ? ? page content ? Hp Hc Hrest];
    subst; cbn [readPages]; unfold bind at 1, await at 1; rewrite Hp.
  - reflexivity.
  - unfold bind at 1, await at 1. now rewrite Hc.
  - unfold bind at 1, await at 1. rewrite Hc. now apply IH.
Qed.

(** Reading the pages either succeeds on all of them or fails at one. *)
Lemma pages_readable_or_failure pdf n : forall i,
  (exists pgs, pagesReadable pdf i n pgs) \/ (exists e, pageFailure pdf i n e).
Proof.
  induction n as [|n IH]; intros i.
  - left. exists []. constructor.
  - destruct (getPage pdf i) as [page|e] eqn:Hp.
    + destruct (getTextContent page) as [content|e] eqn:Hc.
      * destruct (IH (i + 1)) as [[pgs Hr]|[e Hf]].
        -- left. eexists. econstructor; eassumption.
        -- right. exists e. eapply failure_later; eassumption.
      * right. exists e. eapply failure_getTextContent; eassumption.
    + right. exists e. now apply failure_getPage.
Qed.

Lemma pagesReadable_numbers pdf n : forall i pgs,
  pagesReadable pdf i n pgs ->
  map pageNumber pgs = map (fun k => i + Z.of_nat k) (seq 0 n).
Proof.
  induction n as [|n IH]; intros i pgs Hr;
    inversion Hr as [|? ? page content rest Hp Hc Hrest]; subst; cbn [map seq].
  - reflexivity.
  - cbn [pageTextOf pageNumber]. f_equal; [lia|].
    rewrite (IH _ _ Hrest), <- seq_shift, map_map. apply map_ext. intros k. lia.
Qed.

Definition thrownAndLogged (console : Console) (cause : JsError)
  : Result Extracted * Console :=
  (Throw (Error extractMessage), console ++ [(extractLabel, cause)]).

Lemma extractPdfText_fails file cause console :
  extractionFails file cause ->
  extractPdfText getDocument file console = thrownAndLogged console cause.
Proof.
  intros Hf. unfold extractPdfText, tryCatch, thrownAndLogged.
  destruct Hf as [e Hb | buffer e Hb Hd | buffer pdf e Hb Hd Hp].
  - unfold bind at 1, await at 1. rewrite Hb. reflexivity.
  - unfold bind at 1, await at 1. rewrite Hb.
    unfold bind at 1, await at 1. rewrite Hd. reflexivity.
  - unfold bind at 1, await at 1. rewrite Hb.
    unfold bind at 1, await at 1. rewrite Hd.
    unfold bind at 1. rewrite (readPages_failure _ _ _ _ _ _ Hp). reflexivity.
Qed.

(** C3: when extraction fails, for whatever reason, [extractPdfText] logs
    that error and throws an [Error] with the message 'Failed to extract text
    from PDF', returning nothing; otherwise every page was read and the result
    holds the page texts in page order, joined by a space, with the console
    untouched.  One of the two always happens. *)
Theorem extractPdfText_fails_or_joins :
  forall (file : File) (console : Console),
    (forall cause, extractionFails file cause ->
       extractPdfText getDocument file console
       = (Throw (Error extractMessage), console ++ [(extractLabel, cause)]))
    /\
    ((exists cause, extractionFails file cause)
     \/
     (exists buffer pdf pgs result,
        arrayBuffer file = Ok buffer
        /\ getDocument buffer = Ok pdf
        /\ pagesReadable pdf 1 (Z.to_nat (numPages pdf)) pgs
        /\ extractPdfText getDocument file console = (Ok result, console)
        /\ pages result = pgs
        /\ map pageNumber pgs
           = map (fun k => 1 + Z.of_nat k) (seq 0 (Z.to_nat (numPages pdf)))
        /\ fullText result = join (js " ") (map text pgs)
        /\ extractedPages result = numPages pdf)).
Proof.
  intros file console. split.
  - intros cause Hf. now apply extractPdfText_fails.
  - destruct (arrayBuffer file) as [buffer|e] eqn:Hb.
    2:{ left. exists e. now apply fails_arrayBuffer. }
    destruct (getDocument buffer) as [pdf|e] eqn:Hd.
    2:{ left. exists e. eapply fails_getDocument; eassumption. }
    destruct (pages_readable_or_failure pdf (Z.to_nat (numPages pdf)) 1)
      as [[pgs Hr]|[e Hf]].
    2:{ left. exists e. eapply fails_page; eassumption. }
    right. exists buffer, pdf, pgs. eexists.
    split; [reflexivity|]. split; [assumption|]. split; [assumption|].
    split; [|split; [|split; [|split]]].
    + unfold extractPdfText, tryCatch.
      unfold bind at 1, await at 1. rewrite Hb.
      unfold bind at 1, await at 1. rewrite Hd.
      unfold bind at 1. rewrite (readPages_readable pdf _ _ _ _ _ Hr).
      cbn [app]. unfold ret. reflexivity.
    + reflexivity.
    + now apply (pagesReadable_numbers pdf).
    + reflexivity.
    + reflexivity.
Qed.

End Extraction.

(** ** A two-page document and a broken one *)

Definition pageOne : Page :=
  {| getTextContent := Ok {| items := [mkItem (js "Cells"); mkItem (js "divide.")] |} |}.

Definition pageTwo : Page :=
  {| getTextContent := Ok {| items := [mkItem (js "Then"); mkItem (js "they rest.")] |} |}.

Definition invalidPage : JsError := HostError (js "Error") (js "Invalid page request.").

Definition twoPages : PDFDocument :=
  {| numPages := 2;
     getMetadata := Throw (HostError (js "Error") (js "no metadata"));
     getPage := fun i => if i =? 1 then Ok pageOne
                         else if i =? 2 then Ok pageTwo
                         else Throw invalidPage |}.

(** A document that announces three pages and has two. *)
Definition truncated : PDFDocument :=
  {| numPages := 3; getMetadata := getMetadata twoPages; getPage := getPage twoPages |}.

Definition sampleGetDocument (data : list Byte.byte) : Result PDFDocument :=
  match data with
  | [] => Throw (HostError (js "InvalidPDFException") (js "Invalid PDF structure."))
  | [_] => Ok truncated
  | _ => Ok twoPages
  end.

Definition goodFile : File := {| arrayBuffer := Ok [Byte.x25; Byte.x50] |}.
Definition truncatedFile : File := {| arrayBuffer := Ok [Byte.x25] |}.

Example extract_goodFile :
  extractPdfText sampleGetDocument goodFile []
  = (Ok {| fullText := js "Cells divide. Then they rest.";
           pages := [ {| pageNumber := 1; text := js "Cells divide." |};
                      {| pageNumber := 2; text := js "Then they rest." |} ];
           metadata := [];
           extractedPages := 2 |}, []).
Proof. vm_compute. reflexivity. Qed.

Lemma extractPdfText_fails_or_joins_witness :
  extractPdfText sampleGetDocument truncatedFile []
  = (Throw (Error extractMessage), [(extractLabel, invalidPage)]).
Proof.
  apply (proj1 (extractPdfText_fails_or_joins sampleGetDocument truncatedFile [])
               invalidPage).
  eapply fails_page; [reflexivity | reflexivity |].
  eapply failure_later; [reflexivity | reflexivity |].
  eapply failure_later; [reflexivity | reflexivity |].
  apply failure_getPage. reflexivity.
Defined.

End PdfFacts.

(* ===================================================================== *)
(** * Properties of [generateSummary] *)
(* ===================================================================== *)

Module SummaryFacts.
Import Summary.

(** A sentence: some text without terminators, then some terminators. *)
Definition isSentence (s : jsstring) : Prop :=
  exists body ending,
    s = body ++ ending
    /\ body <> [] /\ forallb (fun c => negb (isTerminator c)) body = true
    /\ ending <> [] /\ forallb isTerminator ending = true.

Definition phaseInv (phase : Phase) (cur : jsstring) : Prop :=
  match phase with
  | Outside => cur = []
  | InBody => cur <> [] /\ forallb (fun c => negb (isTerminator c)) cur = true
  | InEnd => isSentence cur
  end.

Lemma scanSentences_wellformed s : forall phase cur,
  phaseInv phase cur -> Forall isSentence (scanSentences phase cur s).
Proof.
  induction s as [|c s IH]; intros phase cur Hinv; cbn [scanSentences].
  - destruct phase; auto.
  - destruct (isTerminator c) eqn:Hc; destruct phase; cbn [phaseInv] in Hinv.
    + apply IH. reflexivity.
    + apply IH. destruct Hinv as [Hne Hb].
      exists cur, [c]. cbn. rewrite Hc. repeat split; auto. discriminate.
    + apply IH. destruct Hinv as (b & e & -> & Hb1 & Hb2 & He1 & He2).
      exists b, (e ++ [c]). rewrite app_assoc, forallb_app, He2. cbn. rewrite Hc.
      repeat split; auto. now destruct e.
    + apply IH. subst cur. cbn. rewrite Hc. split; [discriminate | reflexivity].
    + apply IH. destruct Hinv as [Hne Hb]. cbn. split.
      * now destruct cur.
      * rewrite forallb_app, Hb. cbn. now rewrite Hc.
    + constructor; [assumption|]. apply IH. cbn. rewrite Hc.
      split; [discriminate | reflexivity].
Qed.

(** Every element of [sentences text] is a sentence. *)
Lemma sentences_wellformed text : Forall isSentence (sentences text).
Proof. apply scanSentences_wellformed. reflexivity. Qed.

Example sentences_example :
  sentences (js "...Hi there. How are you?! Fine")
  = [js "Hi there."; js " How are you?!"].
Proof. vm_compute. reflexivity. Qed.

(** The characters of the first [k] sentences. *)
Definition firstSentences (k : nat) (l : list jsstring) : jsstring :=
  List.concat (firstn k l).

Lemma firstSentences_S k s l :
  firstSentences (S k) (s :: l) = s ++ firstSentences k l.
Proof. reflexivity. Qed.

(** The loop keeps the longest run of leading sentences whose total length,
    added to what it already holds, stays within [maxLength]. *)
Lemma summarize_longest_prefix l maxLength : forall summary currentLength,
  exists k,
    (k <= List.length l)%nat
    /\ summarize l maxLength summary currentLength = summary ++ firstSentences k l
    /\ (currentLength <= maxLength ->
        currentLength + length (firstSentences k l) <= maxLength)
    /\ (forall j, (k < j <= List.length l)%nat ->
          maxLength < currentLength + length (firstSentences j l)).
Proof.
  induction l as [|s l IH]; intros summary cur; cbn [summarize].
  - exists 0%nat. cbn. rewrite app_nil_r. repeat split; try lia.
  - destruct (cur + length s <=? maxLength) eqn:Hfit.
    + apply Z.leb_le in Hfit.
      destruct (IH (summary ++ s) (cur + length s)) as (k & Hk & Heq & Hle & Hmax).
      exists (S k). rewrite firstSentences_S, length_app. repeat split.
      * cbn. lia.
      * now rewrite Heq, <- app_assoc.
      * intros _. specialize (Hle Hfit). lia.
      * intros [|j] Hj; [lia|]. rewrite firstSentences_S, length_app.
        cbn in Hj. specialize (Hmax j). lia.
    + apply Z.leb_gt in Hfit. exists 0%nat. cbn [firstSentences firstn List.concat].
      rewrite app_nil_r. repeat split.
      * lia.
      * unfold length. cbn. lia.
      * intros [|j] Hj; [lia|]. rewrite firstSentences_S, length_app.
        pose proof (length_nonneg (firstSentences j l)). lia.
Qed.

(** C10 (as amended): for every text and every [maxLength >= 0], the
    summary is at most [maxLength] long and is the concatenation of the first
    [k] sentences of the text, where no longer run of leading sentences fits
    within [maxLength]; when the first sentence alone is longer than
    [maxLength] the summary is empty. *)
Theorem generateSummary_longest_fitting_prefix :
  forall (text : jsstring) (maxLength : Z),
    0 <= maxLength ->
    length (generateSummary text maxLength) <= maxLength
    /\ (exists k,
          (k <= List.length (sentences text))%nat
          /\ generateSummary text maxLength = firstSentences k (sentences text)
          /\ forall j, (k < j <= List.length (sentences text))%nat ->
               maxLength < length (firstSentences j (sentences text)))
    /\ (forall first rest,
          sentences text = first :: rest ->
          maxLength < length first ->
          generateSummary text maxLength = []).
Proof.
  intros text maxLength Hmax. unfold generateSummary.
  destruct (summarize_longest_prefix (sentences text) maxLength [] 0)
    as (k & Hk & Heq & Hle & Hlong).
  cbn [app] in Heq. split; [|split].
  - rewrite Heq. specialize (Hle Hmax). lia.
  - exists k. split; [assumption|]. split; [assumption|].
    intros j Hj. specialize (Hlong j Hj). lia.
  - intros first rest Hs Hfirst. rewrite Hs. cbn [summarize].
    replace (0 + length first <=? maxLength) with false; [reflexivity|].
    symmetry. apply Z.leb_gt. lia.
Qed.

Lemma generateSummary_longest_fitting_prefix_witness :
  length (generateSummary (js "Hi there. How are you?! Fine") 12) <= 12.
Proof.
  apply (generateSummary_longest_fitting_prefix
           (js "Hi there. How are you?! Fine") 12).
  lia.
Defined.

Example generateSummary_example :
  generateSummary (js "Hi there. How are you?! Fine") 12 = js "Hi there."
  /\ generateSummary (js "Hi there. How are you?! Fine") 500 = js "Hi there. How are you?!"
  /\ generateSummary (js "Hi there. How are you?! Fine") 8 = [].
Proof. vm_compute. repeat split; reflexivity. Qed.

(** C10 (as stated) fails for a negative [maxLength]: the summary of "Hi."
    with [maxLength = -1] is the empty string, whose length 0 is not at most
    -1. *)
Lemma generateSummary_negative_maxLength :
  generateSummary (js "Hi.") (-1) = []
  /\ ~ (length (generateSummary (js "Hi.") (-1)) <= -1).
Proof.
  split; [vm_compute; reflexivity|]. vm_compute. intros H. apply H. reflexivity.
Qed.

End SummaryFacts.

(* ===================================================================== *)
(** * Properties of [findRelevantPassages] *)
(* ===================================================================== *)

Module PassagesFacts.
Import Passages.

(** ** The sort *)

Definition byDecreasingScore (a b : Passage) : Prop := score b <= score a.

Lemma insertByScore_perm item sorted :
  Permutation (item :: sorted) (insertByScore item sorted).
Proof.
  induction sorted as [|other rest IH]; cbn [insertByScore]; [reflexivity|].
  destruct (score item <? score other); [|reflexivity].
  rewrite perm_swap. now apply perm_skip.
Qed.

Lemma sortByScore_perm items : Permutation items (sortByScore items).
Proof.
  induction items as [|item rest IH]; cbn [sortByScore]; [reflexivity|].
  rewrite <- insertByScore_perm. now apply perm_skip.
Qed.

Lemma insertByScore_sorted item sorted :
  StronglySorted byDecreasingScore sorted ->
  StronglySorted byDecreasingScore (insertByScore item sorted).
Proof.
  induction 1 as [|other rest Hs IH Hall]; cbn [insertByScore].
  - repeat constructor.
  - destruct (score item <? score other) eqn:Hlt.
    + apply Z.ltb_lt in Hlt. constructor; [exact IH|].
      apply (Permutation_Forall (insertByScore_perm item rest)).
      constructor; [unfold byDecreasingScore; lia | exact Hall].
    + apply Z.ltb_ge in Hlt. constructor.
      * now constructor.
      * constructor; [exact Hlt|].
        eapply Forall_impl; [|exact Hall].
        unfold byDecreasingScore. intros p Hp. lia.
Qed.

Lemma sortByScore_sorted items : StronglySorted byDecreasingScore (sortByScore items).
Proof.
  induction items as [|item rest IH]; cbn [sortByScore].
  - constructor.
  - now apply insertByScore_sorted.
Qed.

(** The sort is stable: items of equal score keep their order. *)
Example sortByScore_stable :
  sortByScore [mkPassage (js "a") 2; mkPassage (js "b") 5;
               mkPassage (js "c") 2; mkPassage (js "d") 5]
  = [mkPassage (js "b") 5; mkPassage (js "d") 5;
     mkPassage (js "a") 2; mkPassage (js "c") 2].
Proof. vm_compute. reflexivity. Qed.

Section Host.

Variable toLowerCase : jsstring -> jsstring.
Variable regex : Type.
Variable RegExp : jsstring -> option regex.
Variable matchAll : regex -> jsstring -> list jsstring.

#[warning="-notation-for-abbreviation"]
Local Notation scoreWords := (scoreWords regex RegExp matchAll).
#[warning="-notation-for-abbreviation"]
Local Notation scoreChunk := (scoreChunk toLowerCase regex RegExp matchAll).
#[warning="-notation-for-abbreviation"]
Local Notation mapChunks := (mapChunks toLowerCase regex RegExp matchAll).
#[warning="-notation-for-abbreviation"]
Local Notation findRelevantPassages :=
  (findRelevantPassages toLowerCase regex RegExp matchAll).

(** The words of the query that count: longer than 3 code units. *)
Definition meaningfulWords (query : jsstring) : list jsstring :=
  filter (fun word => 3 <? length word) (splitWhitespace (toLowerCase query)).

(** The number of matches of one word in a lower-cased chunk. *)
Definition occurrences (word chunkLower : jsstring) : Z :=
  match RegExp word with
  | Some r => Z.of_nat (List.length (matchAll r chunkLower))
  | None => 0
  end.

Definition matchTotal (words : list jsstring) (chunkLower : jsstring) : Z :=
  fold_right Z.add 0 (map (fun word => occurrences word chunkLower) words).

(** The score the claim describes: the matches of the meaningful words,
    doubled when the chunk contains each of them. *)
Definition relevance (query chunk : jsstring) : Passage :=
  let chunkLower := toLowerCase chunk in
  let total := matchTotal (meaningfulWords query) chunkLower in
  {| text := chunk;
     score := if forallb (fun word => strIncludes chunkLower word) (meaningfulWords query)
              then total * 2 else total |}.

Definition compiles (word : jsstring) : Prop := RegExp word <> None.

Lemma occurrences_nonneg word chunkLower : 0 <= occurrences word chunkLower.
Proof. unfold occurrences. destruct (RegExp word); lia. Qed.

Lemma scoreWords_returns words chunkLower : forall acc,
  Forall compiles (filter (fun word => 3 <? length word) words) ->
  scoreWords words chunkLower acc
  = Returns (acc + matchTotal (filter (fun word => 3 <? length word) words) chunkLower).
Proof.
  induction words as [|word rest IH]; intros acc Hc; cbn [Passages.scoreWords filter].
  - cbn. now rewrite Z.add_0_r.
  - cbn [filter] in Hc. destruct (3 <? length word).
    + inversion Hc as [|? ? Hw Hrest]; subst. unfold compiles in Hw.
      cbn [map fold_right matchTotal]. unfold matchTotal. cbn [map fold_right].
      unfold occurrences at 1.
      destruct (RegExp word) as [r|]; [|congruence].
      rewrite (IH _ Hrest). unfold matchTotal. f_equal. lia.
    + now apply IH.
Qed.

Lemma scoreChunk_returns query chunk :
  Forall compiles (meaningfulWords query) ->
  scoreChunk (splitWhitespace (toLowerCase query)) chunk = Returns (relevance query chunk).
Proof.
  intros Hc. unfold Passages.scoreChunk.
  rewrite (scoreWords_returns _ _ 0 Hc). reflexivity.
Qed.

Lemma mapChunks_returns query textChunks :
  Forall compiles (meaningfulWords query) ->
  mapChunks (splitWhitespace (toLowerCase query)) textChunks
  = Returns (map (relevance query) textChunks).
Proof.
  intros Hc. induction textChunks as [|chunk rest IH]; cbn [Passages.mapChunks map].
  - reflexivity.
  - now rewrite (scoreChunk_returns _ _ Hc), IH.
Qed.

(** X27: where every meaningful word of the query is a valid pattern, the
    call returns the chunks of positive relevance, each with its relevance as
    score, ordered by non-increasing score. *)
Theorem findRelevantPassages_valid_patterns :
  forall (query : jsstring) (textChunks : list jsstring),
    Forall compiles (meaningfulWords query) ->
    exists result,
      findRelevantPassages query textChunks = Returns result
      /\ Permutation result
           (filter (fun item => 0 <? score item) (map (relevance query) textChunks))
      /\ Forall (fun item => In (text item) textChunks /\ 0 < score item) result
      /\ StronglySorted byDecreasingScore result.
Proof.
  intros query textChunks Hc.
  set (kept := filter (fun item => 0 <? score item) (map (relevance query) textChunks)).
  exists (sortByScore kept). split; [|split; [|split]].
  - unfold Passages.findRelevantPassages. now rewrite (mapChunks_returns _ _ Hc).
  - symmetry. apply sortByScore_perm.
  - apply (Permutation_Forall (sortByScore_perm kept)).
    apply Forall_forall. intros item Hin. apply filter_In in Hin as [Hin Hpos].
    apply in_map_iff in Hin as (chunk & <- & Hchunk).
    split; [exact Hchunk | now apply Z.ltb_lt].
  - apply sortByScore_sorted.
Qed.

Lemma scoreWords_throws words chunkLower : forall acc,
  Exists (fun word => RegExp word = None) (filter (fun word => 3 <? length word) words) ->
  exists word, In word words /\ 3 < length word /\ RegExp word = None
               /\ scoreWords words chunkLower acc = ThrowsSyntaxError word.
Proof.
  induction words as [|word rest IH]; intros acc Hex; cbn [filter] in Hex.
  - inversion Hex.
  - cbn [Passages.scoreWords]. destruct (3 <? length word) eqn:Hlen.
    + destruct (RegExp word) as [r|] eqn:Hr.
      * inversion Hex as [? ? Hw | ? ? Hrest]; subst; [congruence|].
        destruct (IH (acc + Z.of_nat (List.length (matchAll r chunkLower))) Hrest)
          as (w & Hin & Hl & Hn & Heq).
        exists w. repeat split; auto. now right.
      * exists word. apply Z.ltb_lt in Hlen. repeat split; auto. now left.
    + destruct (IH acc Hex) as (w & Hin & Hl & Hn & Heq).
      exists w. repeat split; auto. now right.
Qed.

(** C9 (fails on the code): when a word of the query longer than 3 code
    units is not a valid pattern and there is at least one chunk, the call
    does not return: it throws the [SyntaxError] of the [RegExp]
    constructor. *)
Theorem findRelevantPassages_throws_on_invalid_pattern :
  forall (query chunk : jsstring) (rest : list jsstring),
    Exists (fun word => RegExp word = None) (meaningfulWords query) ->
    exists word,
      In word (splitWhitespace (toLowerCase query))
      /\ 3 < length word
      /\ RegExp word = None
      /\ findRelevantPassages query (chunk :: rest) = ThrowsSyntaxError word.
Proof.
  intros query chunk rest Hex.
  destruct (scoreWords_throws _ (toLowerCase chunk) 0 Hex) as (w & Hin & Hl & Hn & Heq).
  exists w. repeat split; auto.
  unfold Passages.findRelevantPassages. cbn [Passages.mapChunks].
  unfold Passages.scoreChunk. now rewrite Heq.
Qed.

End Host.

(** ** Runs on the sample host *)

Example findRelevantPassages_example :
  SampleHost.findRelevantPassages
    (js "What is Photosynthesis light")
    [js "Photosynthesis uses LIGHT. light!"; js "no match here";
     js "what a light"; js "What light? Photosynthesis!"]
  = Returns [ mkPassage (js "What light? Photosynthesis!") 6;
              mkPassage (js "Photosynthesis uses LIGHT. light!") 3;
              mkPassage (js "what a light") 2 ].
Proof. vm_compute. reflexivity. Qed.

Lemma findRelevantPassages_valid_patterns_witness :
  exists result,
    SampleHost.findRelevantPassages (js "plain words") [js "Plain text"; js "numbers"]
    = Returns result
    /\ Permutation result
         (filter (fun item => 0 <? score item)
            (map (relevance SampleHost.toLowerCase SampleHost.regex SampleHost.RegExp
                            SampleHost.matchAll (js "plain words"))
                 [js "Plain text"; js "numbers"]))
    /\ Forall (fun item => In (text item) [js "Plain text"; js "numbers"]
                           /\ 0 < score item) result
    /\ StronglySorted byDecreasingScore result.
Proof.
  apply (findRelevantPassages_valid_patterns
           SampleHost.toLowerCase SampleHost.regex SampleHost.RegExp SampleHost.matchAll
           (js "plain words") [js "Plain text"; js "numbers"]).
  vm_compute. repeat constructor; discriminate.
Defined.

Lemma findRelevantPassages_throws_on_invalid_pattern_witness :
  exists word,
    In word (splitWhitespace (SampleHost.toLowerCase (js "what(is this")))
    /\ 3 < length word
    /\ SampleHost.RegExp word = None
    /\ SampleHost.findRelevantPassages (js "what(is this") [js "what is this"]
       = ThrowsSyntaxError word.
Proof.
  apply (findRelevantPassages_throws_on_invalid_pattern
           SampleHost.toLowerCase SampleHost.regex SampleHost.RegExp SampleHost.matchAll
           (js "what(is this") (js "what is this") []).
  vm_compute. apply Exists_cons_hd. reflexivity.
Defined.

(** C6 (fails on the code): for the query "what(is this" and one chunk the
    call returns no list at all; it throws on the pattern "what(is". *)
Theorem findRelevantPassages_throws_example :
  SampleHost.findRelevantPassages (js "what(is this") [js "what is this"]
  = ThrowsSyntaxError (js "what(is")
  /\ ~ (exists result,
          SampleHost.findRelevantPassages (js "what(is this") [js "what is this"]
          = Returns result).
Proof.
  split; [vm_compute; reflexivity|].
  intros [result H]. vm_compute in H. discriminate.
Qed.

End PassagesFacts.

(* ===================================================================== *)
(** * [chunkText]: where chunks end, and when the call returns *)
(* ===================================================================== *)

Module ChunkMore.
Import Chunk ChunkFacts.

Lemma findBreak_found text s m n : forall i r,
  findBreak text s m n i = Some r ->
  geMinBreakPosition s m r = true
  /\ isBreakAt text r = true
  /\ r <= i
  /\ (forall j, r < j <= i -> isBreakAt text j = false).
Proof.
  induction n as [|n IH]; intros i r; cbn [findBreak]; [discriminate|].
  destruct (geMinBreakPosition s m i) eqn:Hg; [|discriminate].
  destruct (isBreakAt text i) eqn:Hb.
  - intros [= <-]. split; [exact Hg|]. split; [exact Hb|]. split; [lia|].
    intros j Hj. lia.
  - intros Hf. destruct (IH _ _ Hf) as (H1 & H2 & H3 & H4).
    split; [exact H1|]. split; [exact H2|]. split; [lia|].
    intros j Hj. destruct (Z.eq_dec j i) as [->|Hne]; [assumption|].
    apply H4. lia.
Qed.

(** The end of the window in which a chunk starting at [s] may end. *)
Definition windowEnd (text : jsstring) (m s : Z) : Z :=
  Z.min (s + m) (length text).

(** Where a chunk ends: at the latest position of its last fifth right
    after a break string, if the window stops before the end of the text and
    holds one; at the end of the window otherwise. *)
Lemma chunkEnd_cases text m s :
  (chunkEnd text m s = windowEnd text m s
   /\ (windowEnd text m s < length text ->
       forall j, j <= windowEnd text m s ->
                 geMinBreakPosition s m j = true -> isBreakAt text j = false))
  \/
  (windowEnd text m s < length text
   /\ geMinBreakPosition s m (chunkEnd text m s) = true
   /\ isBreakAt text (chunkEnd text m s) = true
   /\ chunkEnd text m s <= windowEnd text m s
   /\ (forall j, chunkEnd text m s < j <= windowEnd text m s ->
                 isBreakAt text j = false)).
Proof.
  unfold chunkEnd, windowEnd.
  destruct (Z.min (s + m) (length text) <? length text) eqn:Hlt.
  - apply Z.ltb_lt in Hlt.
    destruct (findBreak _ _ _ _ _) as [r|] eqn:Hf.
    + right. destruct (findBreak_found _ _ _ _ _ _ Hf) as (H1 & H2 & H3 & H4).
      auto.
    + left. split; [reflexivity|]. intros _ j Hj Hg.
      eapply findBreak_bound_enough; [|exact Hf|exact Hj|exact Hg]. lia.
  - apply Z.ltb_ge in Hlt. left. split; [reflexivity|]. lia.
Qed.

Lemma chunkEnd_progress text m s :
  0 < m -> s < length text ->
  s < chunkEnd text m s <= windowEnd text m s.
Proof.
  intros Hm Hs.
  destruct (chunkEnd_cases text m s) as [[-> _]|(_ & Hg & _ & Hle & _)].
  - unfold windowEnd. lia.
  - unfold geMinBreakPosition in Hg. apply andb_true_iff in Hg as [Hg _].
    apply Z.leb_le in Hg. lia.
Qed.

Lemma isBreakAt_iff text i :
  isBreakAt text i = true <-> In (substring text (i - 2) i) potentialBreaks.
Proof.
  unfold isBreakAt, potentialBreaks. cbn [existsb In].
  rewrite !orb_true_iff, !str_eqb_eq.
  change (length (js ". ")) with 2. change (length (js "? ")) with 2.
  change (length (js "! ")) with 2. change (length [10%N; 10%N]) with 2.
  intuition congruence.
Qed.

Lemma isBreakAt_false_iff text i :
  isBreakAt text i = false <-> ~ In (substring text (i - 2) i) potentialBreaks.
Proof.
  rewrite <- isBreakAt_iff. destruct (isBreakAt text i); split; congruence.
Qed.

Lemma substring_length text s e :
  0 <= s <= e -> e <= length text -> length (substring text s e) = e - s.
Proof.
  intros Hs He. unfold substring, clamp, length in *.
  rewrite length_firstn, length_skipn. lia.
Qed.

(** X2: a chunk is never empty nor longer than [maxChunkSize].  It ends at
    the end of its window (the start plus [maxChunkSize], or the end of the
    text) unless the window stops before the end of the text and a break
    string ('. ', '? ', '! ' or two newlines) ends in its last fifth; then it
    ends right after the last such break string. *)
Theorem chunkStep_ends_at_last_break :
  forall (text : jsstring) (m ov s : Z),
    0 < m -> 0 <= s < length text ->
    exists e,
      chunkStep text m ov s = (substring text s e, e - ov)
      /\ 0 < length (substring text s e) <= m
      /\ ((e = windowEnd text m s
           /\ (e < length text ->
               forall j, 5 * s + 4 * m <= 5 * j -> j <= e ->
                         ~ In (substring text (j - 2) j) potentialBreaks))
          \/
          (windowEnd text m s < length text
           /\ e <= windowEnd text m s
           /\ 4 * m <= 5 * (e - s)
           /\ In (substring text (e - 2) e) potentialBreaks
           /\ (forall j, e < j <= windowEnd text m s ->
                         ~ In (substring text (j - 2) j) potentialBreaks))).
Proof.
  intros text m ov s Hm Hs. exists (chunkEnd text m s).
  pose proof (chunkEnd_progress text m s Hm (proj2 Hs)) as Hp.
  split; [reflexivity|]. split.
  - rewrite substring_length; unfold windowEnd in Hp; lia.
  - destruct (chunkEnd_cases text m s) as [[He Hno]|(Hw & Hg & Hb & Hle & Hno)].
    + left. split; [exact He|]. intros Hlt j Hj1 Hj2.
      apply isBreakAt_false_iff. rewrite He in Hlt, Hj2.
      apply Hno; [exact Hlt|exact Hj2|].
      unfold geMinBreakPosition. apply andb_true_iff.
      split; apply Z.leb_le; lia.
    + right. unfold geMinBreakPosition in Hg. apply andb_true_iff in Hg as [Hg _].
      apply Z.leb_le in Hg. split; [exact Hw|]. split; [exact Hle|].
      split; [lia|]. split; [now apply isBreakAt_iff|].
      intros j Hj. apply isBreakAt_false_iff. now apply Hno.
Qed.

Lemma chunkStep_ends_at_last_break_witness :
  exists e,
    chunkStep (js "Hello. World is big. Yes") 8 0 0
    = (substring (js "Hello. World is big. Yes") 0 e, e - 0)
    /\ 0 < length (substring (js "Hello. World is big. Yes") 0 e) <= 8
    /\ ((e = windowEnd (js "Hello. World is big. Yes") 8 0
         /\ (e < length (js "Hello. World is big. Yes") ->
             forall j, 5 * 0 + 4 * 8 <= 5 * j -> j <= e ->
               ~ In (substring (js "Hello. World is big. Yes") (j - 2) j)
                    potentialBreaks))
        \/
        (windowEnd (js "Hello. World is big. Yes") 8 0
           < length (js "Hello. World is big. Yes")
         /\ e <= windowEnd (js "Hello. World is big. Yes") 8 0
         /\ 4 * 8 <= 5 * (e - 0)
         /\ In (substring (js "Hello. World is big. Yes") (e - 2) e) potentialBreaks
         /\ (forall j, e < j <= windowEnd (js "Hello. World is big. Yes") 8 0 ->
               ~ In (substring (js "Hello. World is big. Yes") (j - 2) j)
                    potentialBreaks))).
Proof.
  apply (chunkStep_ends_at_last_break (js "Hello. World is big. Yes") 8 0 0).
  - lia.
  - vm_compute. split; [discriminate | reflexivity].
Defined.

Lemma substring_skipn text s e :
  0 <= s <= e -> e <= length text ->
  skipn (Z.to_nat s) text = substring text s e ++ skipn (Z.to_nat e) text.
Proof.
  intros Hs He. unfold substring, clamp.
  replace (Z.min (Z.max 0 (Z.min s (length text))) (Z.max 0 (Z.min e (length text))))
    with s by lia.
  replace (Z.max (Z.max 0 (Z.min s (length text))) (Z.max 0 (Z.min e (length text))))
    with e by lia.
  replace (Z.to_nat e) with (Z.to_nat (e - s) + Z.to_nat s)%nat by lia.
  rewrite <- skipn_skipn. symmetry. apply firstn_skipn.
Qed.

Lemma chunkLoop_no_overlap text m : 0 < m ->
  forall fuel s acc,
    0 <= s <= length text ->
    length text - s <= Z.of_nat fuel ->
    exists chunks,
      chunkLoop fuel text m 0 s acc = Some (acc ++ chunks)
      /\ List.concat chunks = skipn (Z.to_nat s) text
      /\ Forall (fun chunk => 0 < length chunk <= m) chunks.
Proof.
  intros Hm. induction fuel as [|fuel IH]; intros s acc Hs Hfuel.
  - assert (s = length text) as -> by lia. cbn [chunkLoop].
    rewrite Z.ltb_irrefl. exists []. rewrite app_nil_r.
    split; [reflexivity|]. split; [|constructor].
    unfold length. rewrite Nat2Z.id, skipn_all. reflexivity.
  - cbn [chunkLoop]. destruct (s <? length text) eqn:Hlt.
    + apply Z.ltb_lt in Hlt.
      pose proof (chunkEnd_progress text m s Hm Hlt) as Hp.
      unfold chunkStep. rewrite Z.sub_0_r.
      set (e := chunkEnd text m s) in *.
      unfold windowEnd in Hp.
      assert (Hlen : 0 < length (substring text s e) <= m)
        by (rewrite substring_length; lia).
      destruct (IH e (acc ++ [substring text s e])) as (chunks & Heq & Hcat & Hall);
        try lia.
      exists (substring text s e :: chunks). split; [|split].
      * rewrite Heq, <- app_assoc. reflexivity.
      * cbn [List.concat]. rewrite Hcat. symmetry. apply substring_skipn; lia.
      * constructor; assumption.
    + apply Z.ltb_ge in Hlt. assert (s = length text) as -> by lia.
      exists []. rewrite app_nil_r. split; [reflexivity|]. split; [|constructor].
      unfold length. rewrite Nat2Z.id, skipn_all. reflexivity.
Qed.

(** X1: without overlap and with a positive [maxChunkSize], [chunkText]
    returns after at most [text.length] iterations; its chunks, put back
    together in order, are the text, and none is empty or longer than
    [maxChunkSize]. *)
Theorem chunkText_no_overlap_partitions :
  forall (text : jsstring) (m : Z) (fuel : nat),
    0 < m ->
    (List.length text <= fuel)%nat ->
    exists chunks,
      chunkText fuel text m 0 = Some chunks
      /\ List.concat chunks = text
      /\ Forall (fun chunk => 0 < length chunk <= m) chunks.
Proof.
  intros text m fuel Hm Hfuel. unfold chunkText.
  destruct (length text =? 0) eqn:Hz.
  - apply Z.eqb_eq in Hz. apply length_zero_iff in Hz. subst text.
    exists []. repeat split. constructor.
  - pose proof (length_nonneg text) as Hlen.
    destruct (chunkLoop_no_overlap text m Hm fuel 0 []) as (chunks & Heq & Hcat & Hall).
    + lia.
    + unfold length. lia.
    + exists chunks. split; [exact Heq|]. split; [exact Hcat|exact Hall].
Qed.

Lemma chunkText_no_overlap_partitions_witness :
  exists chunks,
    chunkText 24 (js "Hello. World is big. Yes") 8 0 = Some chunks
    /\ List.concat chunks = js "Hello. World is big. Yes"
    /\ Forall (fun chunk => 0 < length chunk <= 8) chunks.
Proof.
  apply (chunkText_no_overlap_partitions (js "Hello. World is big. Yes") 8 24).
  - lia.
  - vm_compute. repeat constructor.
Defined.

Lemma chunkLoop_returns_without_overlap text m ov : 0 < m -> ov <= 0 ->
  forall fuel s acc,
    length text - s <= Z.of_nat fuel ->
    exists chunks, chunkLoop fuel text m ov s acc = Some chunks.
Proof.
  intros Hm Hov. induction fuel as [|fuel IH]; intros s acc Hfuel;
    cbn [chunkLoop]; destruct (s <? length text) eqn:Hlt;
    try (apply Z.ltb_lt in Hlt); try (eexists; reflexivity).
  - lia.
  - pose proof (chunkEnd_progress text m s Hm Hlt) as Hp.
    unfold chunkStep. apply IH. lia.
Qed.

(** X3: for a positive [maxChunkSize], [chunkText] returns exactly when the
    text is empty or [chunkOverlap] is not positive; with any positive overlap
    the loop of a non-empty text never ends. *)
Theorem chunkText_returns_iff :
  forall (text : jsstring) (m ov : Z),
    0 < m ->
    ((exists fuel chunks, chunkText fuel text m ov = Some chunks)
     <-> (text = [] \/ ov <= 0)).
Proof.
  intros text m ov Hm. split.
  - intros (fuel & chunks & Hret).
    destruct text as [|c text]; [now left|]. right.
    destruct (Z_le_gt_dec ov 0) as [Hle|Hgt]; [exact Hle|]. exfalso.
    unfold chunkText in Hret. cbn [length List.length] in Hret.
    change (Z.of_nat (S (List.length text)) =? 0) with false in Hret.
    rewrite chunkLoop_diverges in Hret; [discriminate|lia|].
    unfold length. cbn [List.length]. lia.
  - intros [->|Hov].
    + exists 0%nat, []. reflexivity.
    + unfold chunkText. destruct (length text =? 0).
      * exists 0%nat, []. reflexivity.
      * destruct (chunkLoop_returns_without_overlap text m ov Hm Hov
                    (List.length text) 0 []) as (chunks & Heq).
        -- unfold length. lia.
        -- exists (List.length text), chunks. exact Heq.
Qed.

Lemma chunkText_returns_iff_witness :
  (exists fuel chunks, chunkText fuel (js "One. Two. Three.") 6 (-1) = Some chunks)
  <-> (js "One. Two. Three." = [] \/ -1 <= 0).
Proof.
  apply (chunkText_returns_iff (js "One. Two. Three.") 6 (-1)). lia.
Defined.

End ChunkMore.

(* ===================================================================== *)
(** * [generateSummary]: shape of the summary *)
(* ===================================================================== *)

Module SummaryMore.
Import Summary SummaryFacts.

Definition noTerminator (s : jsstring) : bool :=
  forallb (fun c => negb (isTerminator c)) s.

Lemma summarize_extends l maxLength : forall summary currentLength,
  exists rest, summarize l maxLength summary currentLength = summary ++ rest.
Proof.
  intros summary cur.
  destruct (summarize_longest_prefix l maxLength summary cur) as (k & _ & Heq & _).
  eexists. exact Heq.
Qed.

Lemma summarize_monotone l m1 m2 : m1 <= m2 ->
  forall summary currentLength,
  exists rest,
    summarize l m2 summary currentLength
    = summarize l m1 summary currentLength ++ rest.
Proof.
  intros Hm. induction l as [|s l IH]; intros summary cur; cbn [summarize].
  - exists []. now rewrite app_nil_r.
  - destruct (cur + length s <=? m1) eqn:H1.
    + apply Z.leb_le in H1.
      replace (cur + length s <=? m2) with true by (symmetry; apply Z.leb_le; lia).
      apply IH.
    + destruct (cur + length s <=? m2).
      * destruct (summarize_extends l m2 (summary ++ s) (cur + length s)) as (rest & ->).
        exists (s ++ rest). now rewrite <- app_assoc.
      * exists []. now rewrite app_nil_r.
Qed.

(** X5: a larger [maxLength] only adds sentences at the end: the summary for
    a smaller bound is a prefix of the summary for a larger one. *)
Theorem generateSummary_monotone :
  forall (text : jsstring) (m1 m2 : Z),
    m1 <= m2 ->
    exists rest, generateSummary text m2 = generateSummary text m1 ++ rest.
Proof.
  intros text m1 m2 Hm. unfold generateSummary. now apply summarize_monotone.
Qed.

Lemma generateSummary_monotone_witness :
  exists rest,
    generateSummary (js "Hi there. How are you?! Fine") 500
    = generateSummary (js "Hi there. How are you?! Fine") 12 ++ rest.
Proof.
  apply (generateSummary_monotone (js "Hi there. How are you?! Fine") 12 500). lia.
Defined.

(** ** The sentences and the text *)

Lemma scanSentences_covers s : forall phase cur,
  phaseInv phase cur ->
  exists lead tail,
    cur ++ s = lead ++ List.concat (scanSentences phase cur s) ++ tail
    /\ forallb isTerminator lead = true
    /\ noTerminator tail = true
    /\ (phase <> Outside -> lead = []).
Proof.
  induction s as [|c s IH]; intros phase cur Hinv; cbn [scanSentences].
  - rewrite app_nil_r. destruct phase; cbn [phaseInv] in Hinv.
    + subst cur. exists [], []. repeat split.
    + exists [], cur. cbn [app List.concat]. split; [reflexivity|].
      split; [reflexivity|]. split; [apply Hinv|reflexivity].
    + exists [], []. cbn [app List.concat]. rewrite !app_nil_r. repeat split.
  - destruct (isTerminator c) eqn:Hc; destruct phase; cbn [phaseInv] in Hinv.
    + subst cur.
      destruct (IH Outside [] eq_refl) as (lead & tail & Heq & Hl & Ht & _).
      exists (c :: lead), tail. cbn [app] in Heq |- *.
      split; [now f_equal|]. split; [cbn [forallb]; now rewrite Hc, Hl|].
      split; [exact Ht|]. intros H. now contradiction H.
    + assert (Hi : phaseInv InEnd (cur ++ [c])).
      { destruct Hinv as [Hne Hb]. exists cur, [c]. cbn. rewrite Hc.
        repeat split; auto. discriminate. }
      destruct (IH InEnd _ Hi) as (lead & tail & Heq & Hl & Ht & Hnil).
      exists lead, tail. rewrite <- app_assoc in Heq.
      split; [exact Heq|]. split; [exact Hl|]. split; [exact Ht|].
      intros _. apply Hnil. discriminate.
    + assert (Hi : phaseInv InEnd (cur ++ [c])).
      { destruct Hinv as (b & e & -> & Hb1 & Hb2 & He1 & He2).
        exists b, (e ++ [c]). rewrite app_assoc, forallb_app, He2. cbn. rewrite Hc.
        repeat split; auto. now destruct e. }
      destruct (IH InEnd _ Hi) as (lead & tail & Heq & Hl & Ht & Hnil).
      exists lead, tail. rewrite <- app_assoc in Heq.
      split; [exact Heq|]. split; [exact Hl|]. split; [exact Ht|].
      intros _. apply Hnil. discriminate.
    + subst cur.
      assert (Hi : phaseInv InBody ([] ++ [c])).
      { cbn. rewrite Hc. split; [discriminate|reflexivity]. }
      destruct (IH InBody _ Hi) as (lead & tail & Heq & Hl & Ht & Hnil).
      exists lead, tail.
      split; [exact Heq|]. split; [exact Hl|]. split; [exact Ht|].
      intros H. now contradiction H.
    + assert (Hi : phaseInv InBody (cur ++ [c])).
      { destruct Hinv as [Hne Hb]. cbn. split; [now destruct cur|].
        rewrite forallb_app, Hb. cbn. now rewrite Hc. }
      destruct (IH InBody _ Hi) as (lead & tail & Heq & Hl & Ht & Hnil).
      exists lead, tail. rewrite <- app_assoc in Heq.
      split; [exact Heq|]. split; [exact Hl|]. split; [exact Ht|].
      intros _. apply Hnil. discriminate.
    + assert (Hi : phaseInv InBody [c]).
      { cbn. rewrite Hc. split; [discriminate|reflexivity]. }
      destruct (IH InBody _ Hi) as (lead & tail & Heq & Hl & Ht & Hnil).
      rewrite (Hnil ltac:(discriminate)) in Heq. cbn [app] in Heq.
      exists [], tail. cbn [app List.concat]. rewrite <- app_assoc.
      split; [now f_equal|]. split; [reflexivity|]. split; [exact Ht|reflexivity].
Qed.

(** X6: the sentences lie side by side in the text: the text is a run of
    terminators, then all its sentences in order, then a rest without
    terminator; and the summary is the piece of the text right after the
    leading terminators. *)
Theorem generateSummary_is_piece_of_text :
  forall (text : jsstring) (maxLength : Z),
  exists lead tail post,
    text = lead ++ List.concat (sentences text) ++ tail
    /\ forallb isTerminator lead = true
    /\ noTerminator tail = true
    /\ text = lead ++ generateSummary text maxLength ++ post.
Proof.
  intros text maxLength.
  destruct (scanSentences_covers text Outside [] eq_refl)
    as (lead & tail & Heq & Hl & Ht & _).
  cbn [app] in Heq. fold (sentences text) in Heq.
  destruct (summarize_longest_prefix (sentences text) maxLength [] 0)
    as (k & _ & Hsum & _).
  cbn [app] in Hsum. unfold firstSentences in Hsum.
  exists lead, tail, (List.concat (skipn k (sentences text)) ++ tail).
  repeat split; auto.
  unfold generateSummary. rewrite Hsum.
  rewrite (app_assoc (List.concat (firstn k (sentences text)))).
  rewrite <- concat_app, firstn_skipn. exact Heq.
Qed.

Lemma first_sentences_wellformed k text :
  Forall isSentence (firstn k (sentences text)).
Proof.
  pose proof (sentences_wellformed text) as H.
  rewrite <- (firstn_skipn k (sentences text)) in H.
  now apply Forall_app in H.
Qed.

Lemma concat_sentences_head s l :
  Forall isSentence (s :: l) ->
  exists first rest,
    List.concat (s :: l) = first :: rest /\ isTerminator first = false.
Proof.
  intros Hwf. inversion Hwf as [|? ? Hs _]; subst.
  destruct Hs as (b & e & -> & Hb1 & Hb2 & _).
  destruct b as [|first b]; [congruence|].
  cbn in Hb2. apply andb_true_iff in Hb2 as [Hfirst _].
  apply negb_true_iff in Hfirst.
  exists first, ((b ++ e) ++ List.concat l). split; [reflexivity|exact Hfirst].
Qed.

Lemma concat_sentences_last l :
  Forall isSentence l -> l <> [] ->
  exists init last,
    List.concat l = init ++ [last] /\ isTerminator last = true.
Proof.
  intros Hwf Hne.
  destruct (exists_last Hne) as (l' & s & ->).
  apply Forall_app in Hwf as [_ Hs]. inversion Hs as [|? ? Hs' _]; subst.
  destruct Hs' as (b & e & -> & _ & _ & He1 & He2).
  destruct (exists_last He1) as (e' & last & ->).
  rewrite forallb_app in He2. apply andb_true_iff in He2 as [_ Hlast].
  cbn in Hlast. rewrite andb_true_r in Hlast.
  exists (List.concat l' ++ b ++ e'), last. split; [|exact Hlast].
  rewrite concat_app. cbn [List.concat]. rewrite app_nil_r, <- !app_assoc.
  reflexivity.
Qed.

(** X4: a summary never stops inside a sentence: it is empty, or it starts
    with a character that is no terminator and ends with '.', '!' or '?'. *)
Theorem generateSummary_whole_sentences :
  forall (text : jsstring) (maxLength : Z),
    generateSummary text maxLength = []
    \/ exists first middle last,
         generateSummary text maxLength = first :: middle ++ [last]
         /\ isTerminator first = false
         /\ isTerminator last = true.
Proof.
  intros text maxLength.
  destruct (summarize_longest_prefix (sentences text) maxLength [] 0)
    as (k & _ & Hsum & _).
  cbn [app] in Hsum. unfold generateSummary. rewrite Hsum. unfold firstSentences.
  pose proof (first_sentences_wellformed k text) as Hwf.
  destruct (firstn k (sentences text)) as [|s1 l] eqn:Hk; [now left|]. right.
  destruct (concat_sentences_head s1 l Hwf) as (first & rest & Hhead & Hfirst).
  destruct (concat_sentences_last (s1 :: l) Hwf ltac:(discriminate))
    as (init & last & Hlast & Hterm).
  exists first. destruct init as [|x init].
  - exfalso. rewrite Hhead in Hlast. injection Hlast as -> _. congruence.
  - exists init, last. rewrite Hhead in Hlast. injection Hlast as -> ->.
    rewrite Hhead. auto.
Qed.

Lemma noTerminator_no_sentence s : forall phase cur,
  phase <> InEnd -> noTerminator s = true -> scanSentences phase cur s = [].
Proof.
  induction s as [|c s IH]; intros phase cur Hp Hs; cbn [scanSentences].
  - destruct phase; congruence.
  - cbn in Hs. apply andb_true_iff in Hs as [Hc Hs].
    apply negb_true_iff in Hc. rewrite Hc.
    destruct phase; try congruence; apply IH; auto; discriminate.
Qed.

(** X8: a text without '.', '!' and '?' has no sentence, and its summary is
    empty whatever [maxLength] is. *)
Theorem generateSummary_needs_terminator :
  forall (text : jsstring) (maxLength : Z),
    (forall c, In c text -> isTerminator c = false) ->
    sentences text = [] /\ generateSummary text maxLength = [].
Proof.
  intros text maxLength Hno.
  assert (Hs : sentences text = []).
  { apply noTerminator_no_sentence; [discriminate|].
    apply forallb_forall. intros c Hc. now rewrite (Hno c Hc). }
  split; [exact Hs|]. unfold generateSummary. now rewrite Hs.
Qed.

Lemma generateSummary_needs_terminator_witness :
  sentences (js "no punctuation here") = []
  /\ generateSummary (js "no punctuation here") 500 = [].
Proof.
  apply (generateSummary_needs_terminator (js "no punctuation here") 500).
  intros c Hc.
  assert (H : noTerminator (js "no punctuation here") = true)
    by (vm_compute; reflexivity).
  unfold noTerminator in H. rewrite forallb_forall in H.
  apply negb_true_iff. exact (H c Hc).
Defined.

(** ** Summaries of summaries *)

Lemma scan_body b : forall cur s,
  noTerminator b = true ->
  scanSentences InBody cur (b ++ s) = scanSentences InBody (cur ++ b) s.
Proof.
  induction b as [|c b IH]; intros cur s Hb.
  - now rewrite app_nil_r.
  - cbn in Hb. apply andb_true_iff in Hb as [Hc Hb]. apply negb_true_iff in Hc.
    cbn [app scanSentences]. rewrite Hc, (IH _ _ Hb), <- app_assoc. reflexivity.
Qed.

Lemma scan_ending e : forall cur s,
  forallb isTerminator e = true ->
  scanSentences InEnd cur (e ++ s) = scanSentences InEnd (cur ++ e) s.
Proof.
  induction e as [|c e IH]; intros cur s He.
  - now rewrite app_nil_r.
  - cbn in He. apply andb_true_iff in He as [Hc He].
    cbn [app scanSentences]. rewrite Hc, (IH _ _ He), <- app_assoc. reflexivity.
Qed.

Lemma scan_rest c b t e rest :
  noTerminator b = true -> isTerminator t = true -> forallb isTerminator e = true ->
  scanSentences InBody [c] (b ++ t :: e ++ rest)
  = scanSentences InEnd ((c :: b) ++ t :: e) rest.
Proof.
  intros Hb Ht He. rewrite (scan_body b [c] _ Hb).
  cbn [app scanSentences]. rewrite Ht. rewrite (scan_ending e _ _ He).
  cbn [app]. rewrite <- app_assoc. reflexivity.
Qed.

Lemma isSentence_inv s :
  isSentence s ->
  exists c b t e,
    s = (c :: b) ++ t :: e
    /\ isTerminator c = false /\ noTerminator b = true
    /\ isTerminator t = true /\ forallb isTerminator e = true.
Proof.
  intros (b & e & -> & Hb1 & Hb2 & He1 & He2).
  destruct b as [|c b]; [congruence|]. destruct e as [|t e]; [congruence|].
  cbn in Hb2. apply andb_true_iff in Hb2 as [Hc Hb]. apply negb_true_iff in Hc.
  cbn in He2. apply andb_true_iff in He2 as [Ht He].
  exists c, b, t, e. auto.
Qed.

Lemma scan_sentences_after l : forall cur,
  Forall isSentence l ->
  scanSentences InEnd cur (List.concat l) = cur :: l.
Proof.
  induction l as [|s l IH]; intros cur Hwf; cbn [List.concat].
  - reflexivity.
  - inversion Hwf as [|? ? Hs Hl]; subst.
    destruct (isSentence_inv s Hs) as (c & b & t & e & -> & Hc & Hb & Ht & He).
    rewrite <- app_assoc. cbn [app scanSentences]. rewrite Hc. f_equal.
    rewrite (scan_rest c b t e _ Hb Ht He). now apply IH.
Qed.

(** A text made of whole sentences is split into exactly these. *)
Lemma sentences_concat l :
  Forall isSentence l -> sentences (List.concat l) = l.
Proof.
  intros Hwf. destruct l as [|s l]; [reflexivity|].
  inversion Hwf as [|? ? Hs Hl]; subst.
  destruct (isSentence_inv s Hs) as (c & b & t & e & -> & Hc & Hb & Ht & He).
  unfold sentences. cbn [List.concat]. rewrite <- app_assoc.
  cbn [app scanSentences]. rewrite Hc.
  rewrite (scan_rest c b t e _ Hb Ht He). now apply scan_sentences_after.
Qed.

Lemma summarize_all_fit l maxLength : forall summary currentLength,
  currentLength + length (List.concat l) <= maxLength ->
  summarize l maxLength summary currentLength = summary ++ List.concat l.
Proof.
  induction l as [|s l IH]; intros summary cur Hfit; cbn [summarize List.concat].
  - now rewrite app_nil_r.
  - cbn [List.concat] in Hfit. rewrite length_app in Hfit.
    pose proof (length_nonneg (List.concat l)).
    replace (cur + length s <=? maxLength) with true
      by (symmetry; apply Z.leb_le; lia).
    rewrite IH by lia. now rewrite <- app_assoc.
Qed.

(** Nothing fits a negative bound. *)
Lemma generateSummary_negative text maxLength :
  maxLength < 0 -> generateSummary text maxLength = [].
Proof.
  intros Hneg. unfold generateSummary.
  destruct (sentences text) as [|s l]; [reflexivity|]. cbn [summarize].
  pose proof (length_nonneg s).
  now replace (0 + length s <=? maxLength) with false
    by (symmetry; apply Z.leb_gt; lia).
Qed.

(** X7: summarizing a summary with the same bound changes nothing. *)
Theorem generateSummary_idempotent :
  forall (text : jsstring) (maxLength : Z),
    generateSummary (generateSummary text maxLength) maxLength
    = generateSummary text maxLength.
Proof.
  intros text maxLength.
  destruct (Z_le_gt_dec 0 maxLength) as [Hpos|Hneg].
  - destruct (summarize_longest_prefix (sentences text) maxLength [] 0)
      as (k & _ & Hsum & Hfit & _).
    cbn [app] in Hsum. unfold firstSentences in *.
    pose proof (first_sentences_wellformed k text) as Hwf.
    unfold generateSummary at 2 3. rewrite Hsum.
    unfold generateSummary. rewrite (sentences_concat _ Hwf).
    rewrite summarize_all_fit; [reflexivity|]. now apply Hfit.
  - rewrite !generateSummary_negative by lia. reflexivity.
Qed.

End SummaryMore.

(* ===================================================================== *)
(** * [findRelevantPassages]: which chunks are found *)
(* ===================================================================== *)

Module PassagesMore.
Import Passages PassagesFacts.

Section Host.

Variable toLowerCase : jsstring -> jsstring.
Variable regex : Type.
Variable RegExp : jsstring -> option regex.
Variable matchAll : regex -> jsstring -> list jsstring.

#[warning="-notation-for-abbreviation"]
Local Notation findRelevantPassages :=
  (findRelevantPassages toLowerCase regex RegExp matchAll).
#[warning="-notation-for-abbreviation"]
Local Notation meaningfulWords := (meaningfulWords toLowerCase).
#[warning="-notation-for-abbreviation"]
Local Notation occurrences := (occurrences regex RegExp matchAll).
#[warning="-notation-for-abbreviation"]
Local Notation matchTotal := (matchTotal regex RegExp matchAll).
#[warning="-notation-for-abbreviation"]
Local Notation relevance := (relevance toLowerCase regex RegExp matchAll).
#[warning="-notation-for-abbreviation"]
Local Notation compiles := (compiles regex RegExp).

Lemma matchTotal_nonneg words chunkLower : 0 <= matchTotal words chunkLower.
Proof.
  unfold PassagesFacts.matchTotal. induction words as [|w words IH]; cbn; [lia|].
  pose proof (occurrences_nonneg regex RegExp matchAll w chunkLower). lia.
Qed.

Lemma matchTotal_pos_iff words chunkLower :
  0 < matchTotal words chunkLower
  <-> exists word, In word words /\ 0 < occurrences word chunkLower.
Proof.
  unfold PassagesFacts.matchTotal. induction words as [|w words IH]; cbn [map fold_right].
  - split; [lia|]. intros (w & [] & _).
  - pose proof (occurrences_nonneg regex RegExp matchAll w chunkLower) as Hw.
    pose proof (matchTotal_nonneg words chunkLower) as Ht.
    unfold PassagesFacts.matchTotal in Ht. split.
    + intros Hpos. destruct (Z_lt_le_dec 0 (occurrences w chunkLower)) as [Hlt|Hle].
      * exists w. split; [now left|exact Hlt].
      * destruct (proj1 IH ltac:(lia)) as (w' & Hin & Hocc).
        exists w'. split; [now right|exact Hocc].
    + intros (w' & [<-|Hin] & Hocc); [lia|].
      assert (0 < fold_right Z.add 0
                    (map (fun word => occurrences word chunkLower) words)).
      { apply IH. eauto. }
      lia.
Qed.

Lemma relevance_pos_iff query chunk :
  0 < score (relevance query chunk)
  <-> exists word, In word (meaningfulWords query)
                   /\ 0 < occurrences word (toLowerCase chunk).
Proof.
  rewrite <- matchTotal_pos_iff. unfold PassagesFacts.relevance. cbn [score].
  destruct (forallb _ _); lia.
Qed.

(** X9: where every query word longer than 3 code units is a valid
    pattern, a chunk is among the passages returned exactly when it is one of
    the chunks given and at least one of these words has a match in it. *)
Theorem findRelevantPassages_finds_matching_chunks :
  forall (query : jsstring) (textChunks : list jsstring),
    Forall compiles (meaningfulWords query) ->
    exists result,
      findRelevantPassages query textChunks = Returns result
      /\ forall chunk,
           In chunk (map text result)
           <-> In chunk textChunks
               /\ exists word, In word (meaningfulWords query)
                               /\ 0 < occurrences word (toLowerCase chunk).
Proof.
  intros query textChunks Hc.
  set (kept := filter (fun item => 0 <? score item) (map (relevance query) textChunks)).
  assert (Hret : findRelevantPassages query textChunks = Returns (sortByScore kept)).
  { unfold Passages.findRelevantPassages.
    now rewrite (mapChunks_returns toLowerCase regex RegExp matchAll _ _ Hc). }
  assert (Hperm : Permutation (sortByScore kept) kept)
    by (symmetry; apply sortByScore_perm).
  exists (sortByScore kept). split; [exact Hret|]. intros chunk. subst kept.
  rewrite <- relevance_pos_iff. split.
  - intros Hin. apply in_map_iff in Hin as (item & <- & Hitem).
    apply (Permutation_in _ Hperm) in Hitem.
    apply filter_In in Hitem as [Hitem Hpos]. apply Z.ltb_lt in Hpos.
    apply in_map_iff in Hitem as (c & <- & Hcin). cbn [text PassagesFacts.relevance].
    split; [exact Hcin|exact Hpos].
  - intros [Hin Hpos]. apply in_map_iff. exists (relevance query chunk).
    split; [reflexivity|]. apply (Permutation_in _ (Permutation_sym Hperm)).
    apply filter_In. split; [|now apply Z.ltb_lt].
    apply in_map_iff. eauto.
Qed.

Lemma mapChunks_no_words words textChunks :
  filter (fun word => 3 <? length word) words = [] ->
  exists items,
    mapChunks toLowerCase regex RegExp matchAll words textChunks = Returns items
    /\ Forall (fun item => score item = 0) items.
Proof.
  intros Hnone.
  assert (Hscore : forall chunkLower acc,
             scoreWords regex RegExp matchAll words chunkLower acc = Returns acc).
  { intros chunkLower. induction words as [|w ws IH]; intros acc; cbn [scoreWords].
    - reflexivity.
    - cbn [filter] in Hnone. destruct (3 <? length w); [discriminate|]. now apply IH. }
  induction textChunks as [|chunk rest IH]; cbn [mapChunks].
  - exists []. split; [reflexivity|constructor].
  - destruct IH as (items & -> & Hall). unfold scoreChunk. rewrite Hscore, Hnone.
    cbn [forallb]. eexists. split; [reflexivity|]. constructor; [reflexivity|exact Hall].
Qed.

(** X10: nothing is found, and nothing is thrown, when there is no chunk
    (whatever the query, even one that is no valid pattern) or when no word of
    the query is longer than 3 code units. *)
Theorem findRelevantPassages_nothing_to_find :
  forall (query : jsstring) (textChunks : list jsstring),
    textChunks = [] \/ meaningfulWords query = [] ->
    findRelevantPassages query textChunks = Returns [].
Proof.
  intros query textChunks [->|Hnone]; [reflexivity|].
  unfold Passages.findRelevantPassages.
  destruct (mapChunks_no_words _ textChunks Hnone) as (items & -> & Hall).
  f_equal. replace (filter _ items) with (@nil Passage); [reflexivity|].
  symmetry. induction Hall as [|item items Hz _ IH]; cbn [filter]; [reflexivity|].
  rewrite Hz. exact IH.
Qed.

End Host.

Lemma findRelevantPassages_finds_matching_chunks_witness :
  exists result,
    SampleHost.findRelevantPassages (js "plain words") [js "Plain text"; js "numbers"]
    = Returns result
    /\ forall chunk,
         In chunk (map text result)
         <-> In chunk [js "Plain text"; js "numbers"]
             /\ exists word,
                  In word (meaningfulWords SampleHost.toLowerCase (js "plain words"))
                  /\ 0 < occurrences SampleHost.regex SampleHost.RegExp
                                     SampleHost.matchAll word
                                     (SampleHost.toLowerCase chunk).
Proof.
  apply (findRelevantPassages_finds_matching_chunks
           SampleHost.toLowerCase SampleHost.regex SampleHost.RegExp SampleHost.matchAll
           (js "plain words") [js "Plain text"; js "numbers"]).
  vm_compute. repeat constructor; discriminate.
Defined.

Lemma findRelevantPassages_nothing_to_find_witness :
  SampleHost.findRelevantPassages (js "is it so") [js "it is so"; js "so it is"]
  = Returns [].
Proof.
  apply (findRelevantPassages_nothing_to_find
           SampleHost.toLowerCase SampleHost.regex SampleHost.RegExp SampleHost.matchAll
           (js "is it so") [js "it is so"; js "so it is"]).
  right. vm_compute. reflexivity.
Defined.

End PassagesMore.

(* ===================================================================== *)
(** * The uploader: errors, successive and overlapping uploads *)
(* ===================================================================== *)

Module UploaderMore.
Import Uploader UploaderFacts FileKinds.

Definition rejectionMessage : jsstring :=
  js "Only PDF and Word documents are supported.".

Lemma validateFileType_default file :
  validateFileType file allowedFileTypes = isPdf file || isDocx file.
Proof.
  unfold validateFileType, includes, allowedFileTypes, isPdf, isDocx.
  cbn [existsb]. now rewrite orb_false_r.
Qed.

Lemma filter_nil_iff {A} (f : A -> bool) l :
  filter f l = [] <-> forall x, In x l -> f x = false.
Proof.
  split.
  - intros Hnil x Hx. destruct (f x) eqn:Hf; [|reflexivity].
    assert (Hin : In x (filter f l)) by (apply filter_In; auto).
    rewrite Hnil in Hin. destruct Hin.
  - apply filter_none.
Qed.

(** X11: after a call of [handleFiles] and the settlement of its uploads the
    error shown depends on this call alone: there is none exactly when some
    file was a PDF or DOCX file, whatever error was shown before; otherwise it
    is the fixed message.  In both cases the uploading flag is off again. *)
Theorem upload_error_iff_no_valid_file :
  forall (env : nat -> UploadEnv.t) (st : State) (files : list File.t),
    (uploadError (upload env st files) = None
     <-> exists file, In file files /\ validateFileType file allowedFileTypes = true)
    /\ (uploadError (upload env st files) <> None ->
        uploadError (upload env st files) = Some rejectionMessage)
    /\ isUploading (upload env st files) = false.
Proof.
  intros env st files. unfold upload, handleFiles.
  change (fun file => includes allowedFileTypes (File.type file))
    with (fun file => validateFileType file allowedFileTypes).
  destruct (filter (fun file => validateFileType file allowedFileTypes) files)
    as [|f valid] eqn:Hv; cbn [List.length Nat.eqb uploadError isUploading uploadsSettled].
  - split; [|split; [reflexivity|reflexivity]]. split; [discriminate|].
    intros (file & Hin & Hok). rewrite filter_nil_iff in Hv.
    rewrite (Hv file Hin) in Hok. discriminate.
  - split; [|split; [congruence|reflexivity]]. split; [|reflexivity].
    intros _. exists f.
    apply (proj1 (filter_In (fun file => validateFileType file allowedFileTypes)
                            f files)).
    rewrite Hv. now left.
Qed.

(** X12: uploads that follow one another add up: the list holds what it
    held before, then one document per PDF or DOCX file of the first call, then
    one per such file of the second, in the order of the files. *)
Theorem successive_uploads_accumulate :
  forall (env1 env2 : nat -> UploadEnv.t) (st : State) (files1 files2 : list File.t),
    documents (upload env2 (upload env1 st files1) files2)
    = documents st
      ++ newDocuments env1 0 (filter (fun f => validateFileType f allowedFileTypes) files1)
      ++ newDocuments env2 0 (filter (fun f => validateFileType f allowedFileTypes) files2)
    /\ List.length (documents (upload env2 (upload env1 st files1) files2))
       = (List.length (documents st)
          + List.length (filter (fun f => validateFileType f allowedFileTypes) files1)
          + List.length (filter (fun f => validateFileType f allowedFileTypes) files2))%nat.
Proof.
  intros env1 env2 st files1 files2.
  change (fun f => validateFileType f allowedFileTypes) with isAllowed.
  rewrite !upload_documents, <- app_assoc. split; [reflexivity|].
  rewrite !List.length_app, !newDocuments_length. lia.
Qed.

(** X13: two calls of [handleFiles] whose uploads overlap lose the first
    batch: the second call closed over the list as it was before the first
    batch arrived, and its [then] callback writes that list plus its own
    documents. *)
Theorem overlapping_uploads_lose_first_batch :
  forall (env1 env2 : nat -> UploadEnv.t) (st st1 st2 : State)
         (files1 files2 : list File.t) (p1 p2 : Pending),
    handleFiles st files1 = (st1, Some p1) ->
    handleFiles st1 files2 = (st2, Some p2) ->
    documents (uploadsSettled env1 st2 p1)
      = documents st ++ newDocuments env1 0 (validFiles p1)
    /\ documents (uploadsSettled env2 (uploadsSettled env1 st2 p1) p2)
      = documents st ++ newDocuments env2 0 (validFiles p2).
Proof.
  intros env1 env2 st st1 st2 files1 files2 p1 p2 H1 H2.
  unfold handleFiles in H1, H2.
  destruct (Nat.eqb (List.length (filter _ files1)) 0); [discriminate|].
  destruct (Nat.eqb (List.length (filter _ files2)) 0); [discriminate|].
  injection H1 as <- <-. injection H2 as <- <-.
  split; reflexivity.
Qed.

Lemma overlapping_uploads_lose_first_batch_witness :
  documents (uploadsSettled env0 (fst (handleFiles (fst (handleFiles emptyState [pdfFile]))
                                                   [docxFile]))
                            {| validFiles := [pdfFile]; captured := [] |})
    = documents emptyState ++ newDocuments env0 0 [pdfFile]
  /\ documents
       (uploadsSettled env0
          (uploadsSettled env0 (fst (handleFiles (fst (handleFiles emptyState [pdfFile]))
                                                 [docxFile]))
                          {| validFiles := [pdfFile]; captured := [] |})
          {| validFiles := [docxFile]; captured := [] |})
    = documents emptyState ++ newDocuments env0 0 [docxFile].
Proof.
  apply (overlapping_uploads_lose_first_batch env0 env0 emptyState
           (fst (handleFiles emptyState [pdfFile]))
           (fst (handleFiles (fst (handleFiles emptyState [pdfFile])) [docxFile]))
           [pdfFile] [docxFile]
           {| validFiles := [pdfFile]; captured := [] |}
           {| validFiles := [docxFile]; captured := [] |});
    vm_compute; reflexivity.
Defined.

(** X14: [validateFileType] with its default list accepts exactly the files
    for which [isPdf] or [isDocx] holds (never both), and these are the files
    [handleFiles] keeps, in their order; it starts uploads only when there is
    one. *)
Theorem handleFiles_keeps_pdf_and_docx :
  forall (st : State) (files : list File.t),
    (forall file,
        validateFileType file allowedFileTypes = isPdf file || isDocx file
        /\ isPdf file && isDocx file = false)
    /\ match snd (handleFiles st files) with
       | Some p =>
           validFiles p = filter (fun file => isPdf file || isDocx file) files
           /\ validFiles p <> []
           /\ captured p = documents st
       | None => filter (fun file => isPdf file || isDocx file) files = []
       end.
Proof.
  intros st files. split.
  - intros file. split; [apply validateFileType_default|].
    unfold isPdf, isDocx. destruct (str_eqb (File.type file) mimePdf) eqn:Hp;
      [|reflexivity].
    apply str_eqb_eq in Hp. rewrite Hp. reflexivity.
  - unfold handleFiles.
    replace (filter (fun file => includes allowedFileTypes (File.type file)) files)
      with (filter (fun file => isPdf file || isDocx file) files).
    2:{ apply filter_ext. intros file. symmetry. apply validateFileType_default. }
    destruct (filter (fun file => isPdf file || isDocx file) files) as [|f valid];
      cbn [List.length Nat.eqb snd validFiles captured].
    + reflexivity.
    + split; [reflexivity|]. split; [discriminate|reflexivity].
Qed.

End UploaderMore.

(* ===================================================================== *)
(** * The chat page: what a run of events does to the messages *)
(* ===================================================================== *)

Module ChatMore.
Import ChatMessage Chat ChatFacts.

Lemma step_appends st ev :
  exists added,
    messages (step st ev) = messages st ++ added /\ (List.length added <= 1)%nat.
Proof.
  destruct ev as [env question | env [d|] | env]; cbn [step].
  - unfold handleSendMessage. destruct (isBlank question).
    + exists []. rewrite app_nil_r. auto.
    + eexists. cbn [messages]. split; [reflexivity|]. cbn. lia.
  - eexists. cbn [handleDocumentSelect messages]. split; [reflexivity|]. cbn. lia.
  - exists []. cbn [handleDocumentSelect]. rewrite app_nil_r. auto.
  - unfold timerFires. destruct (timers st).
    + exists []. rewrite app_nil_r. auto.
    + eexists. cbn [messages]. split; [reflexivity|]. cbn. lia.
Qed.

(** X15: the message sequence only grows at its end: whatever is sent,
    selected or answered, the messages already there stay where they are, and
    each event adds at most one. *)
Theorem messages_append_only :
  forall (evs : list Event) (st : State),
  exists added,
    messages (run st evs) = messages st ++ added
    /\ (List.length added <= List.length evs)%nat.
Proof.
  induction evs as [|ev evs IH]; intros st.
  - exists []. cbn. rewrite app_nil_r. auto.
  - destruct (step_appends st ev) as (a1 & H1 & L1).
    destruct (IH (step st ev)) as (a2 & H2 & L2).
    exists (a1 ++ a2). change (run st (ev :: evs)) with (run (step st ev) evs).
    rewrite H2, H1, <- app_assoc.
    split; [reflexivity|]. rewrite List.length_app. cbn [List.length]. lia.
Qed.

(** X16: the reply names the document that was active when the message was
    sent: if another document is selected before the timer fires, the reply
    still carries the earlier document (or "your documents" if there was none),
    in its text and in its source. *)
Theorem reply_names_document_active_at_send :
  forall (e1 e2 e3 : ChatEnv.t) (st : State) (question : jsstring) (d : Document.t),
    timers st = [] ->
    isBlank question = false ->
    let st' := run st [Send e1 question; Select e2 (Some d); TimerFires e3] in
    exists selection,
      messages st'
      = messages st ++ [userMessage e1 question; selection;
                        botResponse e3 (activeDocument st)]
      /\ activeDocument st' = Some d
      /\ text (botResponse e3 (activeDocument st)) = botText (activeDocument st)
      /\ source (botResponse e3 (activeDocument st))
         = match activeDocument st with
           | Some old => Some {| document := Document.name old;
                                 page := ChatEnv.pageRoll e3 + 1 |}
           | None => None
           end.
Proof.
  intros e1 e2 e3 st question d Ht Hb st'. subst st'.
  cbn [run fold_left step]. unfold handleSendMessage. rewrite Hb.
  cbn [handleDocumentSelect messages activeDocument timers]. unfold timerFires.
  cbn [timers messages activeDocument]. rewrite Ht. cbn [app].
  eexists. split; [|split; [reflexivity|split; reflexivity]].
  rewrite <- !app_assoc. cbn [app]. reflexivity.
Qed.

Lemma reply_names_document_active_at_send_witness :
  exists selection,
    messages (run sessionA [Send env1 (js "Why?"); Select env2 (Some docB);
                            TimerFires env2])
    = messages sessionA ++ [userMessage env1 (js "Why?"); selection;
                            botResponse env2 (activeDocument sessionA)]
    /\ activeDocument (run sessionA [Send env1 (js "Why?"); Select env2 (Some docB);
                                     TimerFires env2]) = Some docB
    /\ text (botResponse env2 (activeDocument sessionA)) = botText (activeDocument sessionA)
    /\ source (botResponse env2 (activeDocument sessionA))
       = match activeDocument sessionA with
         | Some old => Some {| document := Document.name old;
                               page := ChatEnv.pageRoll env2 + 1 |}
         | None => None
         end.
Proof.
  apply (reply_names_document_active_at_send env1 env2 env2 sessionA (js "Why?") docB);
    reflexivity.
Defined.

Lemma handleSendMessage_fresh_clock_unique_witness :
  NoDup (sessionIds [docA] (handleSendMessage env1 (initial 0) (js "Why?"))).
Proof.
  apply (handleSendMessage_fresh_clock_unique [docA] env1 (initial 0) (js "Why?")).
  - vm_compute. repeat constructor; simpl; intuition discriminate.
  - vm_compute. intuition discriminate.
Defined.

(** ** Messages and replies *)

Definition isUser (m : ChatMessage.t) : bool :=
  match sender m with user => true | bot => false end.

Definition replyPrefix : jsstring := js "I'm analyzing your question about ".

(** A simulated answer: a bot message that starts like [botResponse]'s. *)
Definition isReply (m : ChatMessage.t) : bool :=
  match sender m with
  | bot => startsWith replyPrefix (text m)
  | user => false
  end.

Definition count (f : ChatMessage.t -> bool) (l : list ChatMessage.t) : nat :=
  List.length (filter f l).

Lemma count_snoc f l m :
  count f (l ++ [m]) = (count f l + if f m then 1 else 0)%nat.
Proof.
  unfold count. rewrite filter_app, List.length_app. cbn [filter].
  destruct (f m); reflexivity.
Qed.

Lemma startsWith_app p rest : startsWith p (p ++ rest) = true.
Proof.
  induction p as [|c p IH]; cbn [app startsWith]; [now destruct rest|].
  now rewrite N.eqb_refl, IH.
Qed.

Lemma isReply_botResponse env active : isReply (botResponse env active) = true.
Proof.
  unfold isReply, botResponse, botText. cbn [sender text]. apply startsWith_app.
Qed.

(** User messages are answered one for one: the user messages shown are as
    many as the replies shown plus the replies still pending. *)
Definition answeredOneForOne (st : State) : Prop :=
  count isUser (messages st)
  = (count isReply (messages st) + List.length (timers st))%nat.

Lemma step_answeredOneForOne st ev :
  answeredOneForOne st -> answeredOneForOne (step st ev).
Proof.
  unfold answeredOneForOne. intros Hinv.
  destruct ev as [env question | env [d|] | env]; cbn [step].
  - unfold handleSendMessage. destruct (isBlank question); [exact Hinv|].
    cbn [messages timers]. rewrite !count_snoc, List.length_app. cbn. lia.
  - cbn [handleDocumentSelect messages timers]. rewrite !count_snoc.
    cbn. lia.
  - exact Hinv.
  - unfold timerFires.
    destruct (timers st) as [|active rest] eqn:Ht; [now rewrite Ht|].
    cbn [messages timers]. rewrite !count_snoc, isReply_botResponse.
    cbn [isUser botResponse sender]. cbn [List.length] in Hinv. lia.
Qed.

(** X17: in every state the page reaches from its initial one, each user
    message has exactly one reply, shown or still pending; once no timer is
    pending there are as many replies as user messages. *)
Theorem every_message_answered_once :
  forall (date : Z) (evs : list Event),
    let st := run (initial date) evs in
    count isUser (messages st)
    = (count isReply (messages st) + List.length (timers st))%nat
    /\ (timers st = [] -> count isReply (messages st) = count isUser (messages st)).
Proof.
  intros date evs st.
  assert (Hinv : answeredOneForOne st).
  { subst st. unfold run.
    assert (Hgen : forall evs s, answeredOneForOne s ->
                                 answeredOneForOne (fold_left step evs s)).
    { clear. induction evs as [|ev evs IH]; intros s Hs; cbn [fold_left]; [exact Hs|].
      apply IH. now apply step_answeredOneForOne. }
    apply Hgen. reflexivity. }
  split; [exact Hinv|]. intros Ht. unfold answeredOneForOne in Hinv.
  rewrite Ht in Hinv. cbn [List.length] in Hinv. lia.
Qed.

(** ** The input boxes *)

Lemma trim_isBlank s : trim s = [] <-> isBlank s = true.
Proof.
  unfold isBlank. destruct s as [|c s]; [split; reflexivity|].
  destruct (trim (c :: s)); split; congruence.
Qed.

(** X18: [ChatInterface] and the page agree on what is sent: a blank input
    changes nothing; any other input is appended as a user message with the
    text as typed, the input box is cleared and the typing indicator set. *)
Theorem chatInterface_handleSend_sends_or_ignores :
  forall (env : ChatEnv.t) (ui : ChatInterface.State) (chat : State),
    (isBlank (ChatInterface.inputValue ui) = true
     /\ ChatInterface.handleSend env ui chat = (ui, chat))
    \/
    (isBlank (ChatInterface.inputValue ui) = false
     /\ fst (ChatInterface.handleSend env ui chat)
        = {| ChatInterface.inputValue := []; ChatInterface.isTyping := true |}
     /\ messages (snd (ChatInterface.handleSend env ui chat))
        = messages chat ++ [userMessage env (ChatInterface.inputValue ui)]).
Proof.
  intros env ui chat. unfold ChatInterface.handleSend.
  destruct (trim (ChatInterface.inputValue ui)) as [|c t] eqn:Htrim.
  - left. split; [now apply trim_isBlank|reflexivity].
  - right. assert (Hb : isBlank (ChatInterface.inputValue ui) = false).
    { destruct (isBlank _) eqn:Hb; [|reflexivity].
      apply trim_isBlank in Hb. congruence. }
    split; [exact Hb|]. split; [reflexivity|].
    cbn [snd]. unfold handleSendMessage. now rewrite Hb.
Qed.

(** X19: [ChatInput] sends nothing while it is disabled or its message is
    blank, and then keeps the message; otherwise the message is appended as
    typed and the box is cleared. *)
Theorem chatInput_handleSend_sends_or_keeps :
  forall (env : ChatEnv.t) (disabled : bool) (message : jsstring) (chat : State),
    ((disabled = true \/ isBlank message = true)
     /\ ChatInput.handleSend env disabled message chat = (message, chat))
    \/
    (disabled = false /\ isBlank message = false
     /\ fst (ChatInput.handleSend env disabled message chat) = []
     /\ messages (snd (ChatInput.handleSend env disabled message chat))
        = messages chat ++ [userMessage env message]).
Proof.
  intros env disabled message chat. unfold ChatInput.handleSend.
  destruct (trim message) as [|c t] eqn:Htrim.
  - left. split; [right; now apply trim_isBlank|reflexivity].
  - destruct disabled.
    + left. split; [now left|reflexivity].
    + right. assert (Hb : isBlank message = false).
      { destruct (isBlank message) eqn:Hb; [|reflexivity].
        apply trim_isBlank in Hb. congruence. }
      split; [reflexivity|]. split; [exact Hb|]. split; [reflexivity|].
      cbn [snd]. unfold handleSendMessage. now rewrite Hb.
Qed.

End ChatMore.

(* ===================================================================== *)
(** * Extraction and thumbnails: what failures do *)
(* ===================================================================== *)

Module PdfMore.
Import Pdf PdfFacts.

Lemma readPages_same_pages pdf pdf' :
  (forall i, getPage pdf' i = getPage pdf i) ->
  forall n i acc console,
    readPages pdf' n i acc console = readPages pdf n i acc console.
Proof.
  intros Hsame. induction n as [|n IH]; intros i acc console; cbn [readPages].
  - reflexivity.
  - unfold bind, await. rewrite Hsame.
    destruct (getPage pdf i) as [page|e]; [|reflexivity].
    destruct (getTextContent page) as [content|e]; [|reflexivity].
    apply IH.
Qed.

(** The same document with a [getMetadata] that rejects. *)
Definition withoutMetadata (e : JsError) (pdf : PDFDocument) : PDFDocument :=
  {| numPages := numPages pdf; getMetadata := Throw e; getPage := getPage pdf |}.

Definition mapResult {A B} (f : A -> B) (r : Result A) : Result B :=
  match r with
  | Ok a => Ok (f a)
  | Throw e => Throw e
  end.

(** X20: a [getMetadata] that rejects does not make the extraction fail:
    the outcome is the one of the same document with readable metadata, except
    that the metadata of the result is empty. *)
Theorem extractPdfText_survives_metadata_failure :
  forall (getDocument : list Byte.byte -> Result PDFDocument)
         (e : JsError) (file : File) (console : Console),
    extractPdfText (fun data => mapResult (withoutMetadata e) (getDocument data))
                   file console
    = match extractPdfText getDocument file console with
      | (Ok r, console') =>
          (Ok {| fullText := fullText r; pages := pages r; metadata := [];
                 extractedPages := extractedPages r |}, console')
      | (Throw x, console') => (Throw x, console')
      end.
Proof.
  intros getDocument e file console. unfold extractPdfText, tryCatch.
  unfold bind, await.
  destruct (arrayBuffer file) as [buffer|x]; [|reflexivity].
  destruct (getDocument buffer) as [pdf|x]; cbn [mapResult]; [|reflexivity].
  rewrite (readPages_same_pages pdf (withoutMetadata e pdf) (fun _ => eq_refl)).
  cbn [numPages withoutMetadata].
  destruct (readPages pdf (Z.to_nat (numPages pdf)) 1 [] console) as [[pgs|x] console'];
    reflexivity.
Qed.

End PdfMore.

Module DocxFacts.
Import Pdf Docx.

Section Extraction.

Variable newDocument : list Byte.byte -> Result WordDocument.

(** Extraction of a Word document fails with [cause]: the file cannot be
    read, the document cannot be built, or its text or its properties cannot
    be read. *)
Inductive docxFails (file : File) : JsError -> Prop :=
| docx_arrayBuffer e :
    arrayBuffer file = Throw e -> docxFails file e
| docx_newDocument buffer e :
    arrayBuffer file = Ok buffer -> newDocument buffer = Throw e -> docxFails file e
| docx_getText buffer doc e :
    arrayBuffer file = Ok buffer -> newDocument buffer = Ok doc ->
    getText doc = Throw e -> docxFails file e
| docx_getProperties buffer doc content e :
    arrayBuffer file = Ok buffer -> newDocument buffer = Ok doc ->
    getText doc = Ok content -> getProperties doc = Throw e -> docxFails file e.

(** X21: [extractDocxText] either returns the text of the document with its
    properties, each missing one replaced by its default (empty title and
    author, the current date), and writes nothing to the console; or some step
    failed, and it logs that error once and throws an [Error] with the message
    'Failed to extract text from Word document'. *)
Theorem extractDocxText_returns_or_logs_and_throws :
  forall (now1 now2 : Z) (file : File) (console : Console),
    (exists cause,
        docxFails file cause
        /\ extractDocxText newDocument now1 now2 file console
           = (Throw (Error docxMessage), console ++ [(docxLabel, cause)]))
    \/
    (exists buffer doc content found,
        arrayBuffer file = Ok buffer
        /\ newDocument buffer = Ok doc
        /\ getText doc = Ok content
        /\ getProperties doc = Ok found
        /\ extractDocxText newDocument now1 now2 file console
           = (Ok {| docxText := content;
                    docxMetadata :=
                      match found with
                      | Some p =>
                          {| metaTitle := orElse (title p) [];
                             metaAuthor := orElse (creator p) [];
                             metaCreatedAt := orElse (createdAt p) now1;
                             metaModifiedAt := orElse (modifiedAt p) now2 |}
                      | None =>
                          {| metaTitle := []; metaAuthor := [];
                             metaCreatedAt := now1; metaModifiedAt := now2 |}
                      end |}, console)).
Proof.
  intros now1 now2 file console.
  unfold extractDocxText, tryCatch, bind, await, ret, throw, consoleError.
  destruct (arrayBuffer file) as [buffer|e] eqn:Hb.
  2:{ left. exists e. split; [now apply docx_arrayBuffer|reflexivity]. }
  destruct (newDocument buffer) as [doc|e] eqn:Hd.
  2:{ left. exists e. split; [eapply docx_newDocument; eassumption|reflexivity]. }
  destruct (getText doc) as [content|e] eqn:Ht.
  2:{ left. exists e. split; [eapply docx_getText; eassumption|reflexivity]. }
  destruct (getProperties doc) as [found|e] eqn:Hp.
  2:{ left. exists e. split; [eapply docx_getProperties; eassumption|reflexivity]. }
  right. exists buffer, doc, content, found.
  repeat (split; [first [assumption | reflexivity]|]).
  destruct found; reflexivity.
Qed.

End Extraction.

End DocxFacts.

Module ThumbnailFacts.
Import Pdf Thumbnail.


End ThumbnailFacts.

(* ===================================================================== *)
(** * [getFileExtension] *)
(* ===================================================================== *)

Module ExtensionFacts.
Import Extension.

(** No code unit of [s] is a dot. *)
Definition hasNoDot (s : jsstring) : Prop := forall c, In c s -> c <> dot.

Lemma lastIndexFrom_absent s : forall i found,
  hasNoDot s -> lastIndexFrom dot s i found = found.
Proof.
  induction s as [|x s IH]; intros i found Hno; cbn [lastIndexFrom]; [reflexivity|].
  assert (Hx : N.eqb x dot = false).
  { apply N.eqb_neq. apply Hno. now left. }
  rewrite Hx. apply IH. intros c Hc. apply Hno. now right.
Qed.

Lemma lastIndexFrom_app a : forall b i found,
  lastIndexFrom dot (a ++ b) i found
  = lastIndexFrom dot b (i + length a) (lastIndexFrom dot a i found).
Proof.
  induction a as [|x a IH]; intros b i found; cbn [app lastIndexFrom].
  - f_equal. unfold length. cbn. lia.
  - rewrite IH. f_equal. unfold length. cbn [List.length]. lia.
Qed.

Lemma lastIndexOf_last_dot stem ext :
  hasNoDot ext -> lastIndexOf (stem ++ dot :: ext) dot = length stem.
Proof.
  intros Hno. unfold lastIndexOf. rewrite lastIndexFrom_app.
  cbn [lastIndexFrom]. rewrite N.eqb_refl.
  rewrite lastIndexFrom_absent by exact Hno. lia.
Qed.

Lemma slice_beyond s start : length s <= start -> slice s start = [].
Proof.
  intros H. pose proof (length_nonneg s). unfold slice.
  replace (start <? 0) with false by (symmetry; apply Z.ltb_ge; lia).
  replace (Z.min start (length s)) with (length s) by lia.
  unfold length. rewrite Nat2Z.id. apply skipn_all.
Qed.

Lemma slice_after stem c ext :
  slice (stem ++ c :: ext) (length stem + 1) = ext.
Proof.
  pose proof (length_nonneg stem). unfold slice.
  replace (length stem + 1 <? 0) with false by (symmetry; apply Z.ltb_ge; lia).
  rewrite length_app. unfold length at 3. cbn [List.length].
  replace (Z.min (length stem + 1) (length stem + Z.of_nat (S (List.length ext))))
    with (length stem + 1) by lia.
  unfold length. replace (Z.to_nat (Z.of_nat (List.length stem) + 1))
    with (List.length stem + 1)%nat by lia.
  rewrite skipn_app, skipn_all2 by lia.
  replace (List.length stem + 1 - List.length stem)%nat with 1%nat by lia.
  reflexivity.
Qed.

(** X23: for a name shorter than 2^32 code units, [getFileExtension] is
    empty when the name has no dot or only a leading one (a hidden file);
    otherwise it is what follows the last dot.  The result never contains a
    dot. *)
Theorem getFileExtension_after_last_dot :
  forall (filename : jsstring),
    length filename < 2 ^ 32 ->
    (hasNoDot filename -> getFileExtension filename = [])
    /\ (forall stem ext,
          filename = stem ++ dot :: ext -> hasNoDot ext ->
          getFileExtension filename = match stem with [] => [] | _ :: _ => ext end)
    /\ hasNoDot (getFileExtension filename).
Proof.
  intros filename Hlen.
  assert (Hnone : hasNoDot filename -> getFileExtension filename = []).
  { intros Hno. unfold getFileExtension, lastIndexOf.
    rewrite lastIndexFrom_absent by exact Hno.
    apply slice_beyond. unfold toUint32. change ((-1 - 1) mod 2 ^ 32) with (2 ^ 32 - 2).
    lia. }
  assert (Hsplit : forall stem ext,
             filename = stem ++ dot :: ext -> hasNoDot ext ->
             getFileExtension filename = match stem with [] => [] | _ :: _ => ext end).
  { intros stem ext -> Hno. unfold getFileExtension.
    rewrite lastIndexOf_last_dot by exact Hno.
    rewrite length_app in Hlen. pose proof (length_nonneg ext).
    unfold length at 2 in Hlen. cbn [List.length] in Hlen.
    destruct stem as [|c stem].
    - apply slice_beyond. change (toUint32 (length [] - 1)) with (2 ^ 32 - 1).
      unfold length in *. cbn [List.length app] in *. lia.
    - unfold toUint32. rewrite Z.mod_small.
      + replace (length (c :: stem) - 1 + 2) with (length (c :: stem) + 1) by lia.
        apply slice_after.
      + unfold length in *. cbn [List.length] in *. lia. }
  split; [exact Hnone|]. split; [exact Hsplit|].
  (* the result has no dot: split the name at its last dot, if any *)
  assert (Hdec : hasNoDot filename
                 \/ exists stem ext, filename = stem ++ dot :: ext /\ hasNoDot ext).
  { clear. induction filename as [|x s IH].
    - left. intros c [].
    - destruct IH as [Hno|(stem & ext & -> & Hno)].
      + destruct (N.eq_dec x dot) as [->|Hx].
        * right. exists [], s. auto.
        * left. intros c [<-|Hc]; auto.
      + right. exists (x :: stem), ext. auto. }
  destruct Hdec as [Hno|(stem & ext & Heq & Hno)].
  - rewrite (Hnone Hno). intros c [].
  - rewrite (Hsplit stem ext Heq Hno). destruct stem; [intros c []|exact Hno].
Qed.

Lemma hasNoDot_forallb s :
  forallb (fun c => negb (N.eqb c dot)) s = true -> hasNoDot s.
Proof.
  intros H c Hc. rewrite forallb_forall in H. specialize (H c Hc).
  apply negb_true_iff in H. now apply N.eqb_neq.
Qed.

Lemma getFileExtension_after_last_dot_witness :
  getFileExtension (js "archive.tar.gz") = js "gz".
Proof.
  refine (proj1 (proj2 (getFileExtension_after_last_dot (js "archive.tar.gz") _))
                (js "archive.tar") (js "gz") eq_refl _).
  - vm_compute. reflexivity.
  - apply hasNoDot_forallb. vm_compute. reflexivity.
Defined.

Example getFileExtension_examples :
  getFileExtension (js "notes") = []
  /\ getFileExtension (js ".gitignore") = []
  /\ getFileExtension (js "paper.pdf") = js "pdf"
  /\ getFileExtension (js "trailing.") = [].
Proof. vm_compute. repeat split; reflexivity. Qed.

End ExtensionFacts.

(* ===================================================================== *)
(** * [detectLanguage] *)
(* ===================================================================== *)

Module LanguageFacts.
Import Language.

(** The markers of the [k]-th language and its code. *)
Definition markersAt (k : nat) : list jsstring :=
  snd (nth k languageMarkers ([], [])).

Definition codeAt (k : nat) : jsstring :=
  fst (nth k languageMarkers ([], [])).

(** How many of the words are markers of the [k]-th language. *)
Definition markerCount (k : nat) (words : list jsstring) : Z :=
  Z.of_nat (List.length (filter (includes (markersAt k)) words)).

(** The object [matches] with the four counts. *)
Definition tally (a b c d : Z) : Matches :=
  [(js "en", a); (js "es", b); (js "fr", c); (js "de", d)].

(** 1 when the word is a marker of the [k]-th language. *)
Definition hit (k : nat) (word : jsstring) : Z :=
  if includes (markersAt k) word then 1 else 0.

Lemma countWord_tally word a b c d :
  countWord word languageMarkers (tally a b c d)
  = tally (a + hit 0 word) (b + hit 1 word) (c + hit 2 word) (d + hit 3 word).
Proof.
  unfold hit, markersAt, languageMarkers. cbn [countWord nth snd].
  destruct (includes _ word); destruct (includes _ word);
    destruct (includes _ word); destruct (includes _ word);
    cbn; unfold tally; rewrite ?Z.add_0_r; reflexivity.
Qed.

Lemma markerCount_cons k word words :
  markerCount k (word :: words) = hit k word + markerCount k words.
Proof.
  unfold markerCount, hit. cbn [filter].
  destruct (includes (markersAt k) word); cbn [List.length]; lia.
Qed.

Lemma countWords_tally words : forall a b c d,
  countWords words (tally a b c d)
  = tally (a + markerCount 0 words) (b + markerCount 1 words)
          (c + markerCount 2 words) (d + markerCount 3 words).
Proof.
  induction words as [|word words IH]; intros a b c d; cbn [countWords].
  - unfold markerCount. cbn. now rewrite !Z.add_0_r.
  - rewrite countWord_tally, IH, !markerCount_cons, <- !Z.add_assoc. reflexivity.
Qed.

Lemma markerCount_nonneg k words : 0 <= markerCount k words.
Proof. unfold markerCount. lia. Qed.

Lemma pickBest_tally a b c d :
  0 <= a -> 0 <= b -> 0 <= c -> 0 <= d ->
  exists k,
    (k < 4)%nat
    /\ pickBest (tally a b c d) (js "en") 0 = codeAt k
    /\ (forall j, (j < 4)%nat -> nth j [a; b; c; d] 0 <= nth k [a; b; c; d] 0)
    /\ (forall j, (j < k)%nat -> nth j [a; b; c; d] 0 < nth k [a; b; c; d] 0).
Proof.
  intros Ha Hb Hc Hd. unfold tally. cbn [pickBest].
  repeat match goal with
         | |- context [?x <? ?y] =>
             let H := fresh "H" in
             destruct (x <? y) eqn:H;
             [apply Z.ltb_lt in H | apply Z.ltb_ge in H]
         end;
    first [ exists 0%nat; split; [lia|]; split; [reflexivity|]; split;
            intros [|[|[|[|j]]]] Hj; cbn [nth]; lia
          | exists 1%nat; split; [lia|]; split; [reflexivity|]; split;
            intros [|[|[|[|j]]]] Hj; cbn [nth]; lia
          | exists 2%nat; split; [lia|]; split; [reflexivity|]; split;
            intros [|[|[|[|j]]]] Hj; cbn [nth]; lia
          | exists 3%nat; split; [lia|]; split; [reflexivity|]; split;
            intros [|[|[|[|j]]]] Hj; cbn [nth]; lia ].
Qed.

Section Host.
Variable toLowerCase : jsstring -> jsstring.

(** The words of a text, as [detectLanguage] reads them. *)
Definition wordsOf (text : jsstring) : list jsstring :=
  wordRuns [] (toLowerCase text).

(** X24: [detectLanguage] answers one of the four codes en, es, fr, de: the
    language with the most marker words among the words of the lower-cased
    text, the first of them in that order when several have as many.  A text
    without any marker word, the empty text included, is taken for English. *)
Theorem detectLanguage_picks_most_markers :
  forall (text : jsstring),
  exists k,
    (k < 4)%nat
    /\ detectLanguage toLowerCase text = codeAt k
    /\ (forall j, (j < 4)%nat ->
          markerCount j (wordsOf text) <= markerCount k (wordsOf text))
    /\ (forall j, (j < k)%nat ->
          markerCount j (wordsOf text) < markerCount k (wordsOf text))
    /\ ((forall word, In word (wordsOf text) ->
           forall j, (j < 4)%nat -> includes (markersAt j) word = false) ->
        detectLanguage toLowerCase text = js "en").
Proof.
  intros text. unfold detectLanguage. fold (wordsOf text).
  change initialMatches with (tally 0 0 0 0).
  rewrite countWords_tally, !Z.add_0_l.
  destruct (pickBest_tally (markerCount 0 (wordsOf text)) (markerCount 1 (wordsOf text))
              (markerCount 2 (wordsOf text)) (markerCount 3 (wordsOf text)))
    as (k & Hk & Hbest & Hmax & Hfirst); try apply markerCount_nonneg.
  assert (Hnth : forall j, (j < 4)%nat ->
             nth j [markerCount 0 (wordsOf text); markerCount 1 (wordsOf text);
                    markerCount 2 (wordsOf text); markerCount 3 (wordsOf text)] 0
             = markerCount j (wordsOf text)).
  { intros [|[|[|[|j]]]] Hj; try reflexivity. lia. }
  exists k. split; [exact Hk|]. split; [exact Hbest|]. split; [|split].
  - intros j Hj. rewrite <- (Hnth j Hj), <- (Hnth k Hk). now apply Hmax.
  - intros j Hj. rewrite <- (Hnth j ltac:(lia)), <- (Hnth k Hk). now apply Hfirst.
  - intros Hnone. rewrite Hbest.
    assert (Hzero : forall j, (j < 4)%nat -> markerCount j (wordsOf text) = 0).
    { intros j Hj. unfold markerCount.
      replace (filter (includes (markersAt j)) (wordsOf text)) with (@nil jsstring);
        [reflexivity|].
      symmetry. apply UploaderFacts.filter_none. intros w Hw. now apply Hnone. }
    destruct k as [|k]; [reflexivity|]. exfalso.
    specialize (Hfirst 0%nat ltac:(lia)).
    rewrite (Hnth 0%nat ltac:(lia)), (Hnth (S k) Hk) in Hfirst.
    rewrite !Hzero in Hfirst by lia. lia.
Qed.
End Host.

Example language_codes :
  map codeAt [0; 1; 2; 3]%nat = [js "en"; js "es"; js "fr"; js "de"].
Proof. reflexivity. Qed.

Lemma detectLanguage_picks_most_markers_witness :
  detectLanguage SampleHost.toLowerCase (js "12 + 30 = 42 !") = js "en".
Proof.
  destruct (detectLanguage_picks_most_markers SampleHost.toLowerCase
              (js "12 + 30 = 42 !")) as (k & _ & _ & _ & _ & Hen).
  apply Hen. intros word Hw j Hj. vm_compute in Hw.
  destruct Hw as [<-|[<-|[<-|[]]]];
    destruct j as [|[|[|[|j]]]]; try lia; reflexivity.
Defined.

Example detectLanguage_examples :
  detectLanguage SampleHost.toLowerCase (js "El perro y la casa.") = js "es"
  /\ detectLanguage SampleHost.toLowerCase (js "Der Hund und die Katze") = js "de"
  /\ detectLanguage SampleHost.toLowerCase (js "La maison") = js "es"
  /\ detectLanguage SampleHost.toLowerCase (js "") = js "en".
Proof. vm_compute. repeat split; reflexivity. Qed.

End LanguageFacts.

(* ===================================================================== *)
(** * [extractKeywords] *)
(* ===================================================================== *)

Module KeywordsFacts.
Import Keywords.

(** How often [word] occurs in [words]. *)
Definition occurrences (word : jsstring) (words : list jsstring) : Z :=
  Z.of_nat (List.length (filter (str_eqb word) words)).

(** [wordFrequency[key]], for an own property. *)
Fixpoint valueAt (key : jsstring) (freq : Frequencies) : option Frequency :=
  match freq with
  | [] => None
  | (k, v) :: rest => if str_eqb k key then Some v else valueAt key rest
  end.

(** The property names, in the order of their creation. *)
Definition keysOf (freq : Frequencies) : list jsstring := map fst freq.

Lemma str_eqb_sym a b : str_eqb a b = str_eqb b a.
Proof.
  destruct (str_eqb a b) eqn:H1; destruct (str_eqb b a) eqn:H2; try reflexivity.
  - apply str_eqb_eq in H1. subst. rewrite str_eqb_refl in H2. discriminate.
  - apply str_eqb_eq in H2. subst. rewrite str_eqb_refl in H1. discriminate.
Qed.

Lemma str_eqb_neq a b : str_eqb a b = false <-> a <> b.
Proof.
  rewrite <- str_eqb_eq. destruct (str_eqb a b); split; congruence.
Qed.

Lemma valueAt_None_iff key freq : valueAt key freq = None <-> ~ In key (keysOf freq).
Proof.
  induction freq as [|[k v] rest IH]; cbn [valueAt keysOf map In fst].
  - tauto.
  - destruct (str_eqb k key) eqn:Hk.
    + apply str_eqb_eq in Hk. split; [discriminate|]. tauto.
    + apply str_eqb_neq in Hk. fold (keysOf rest). rewrite IH. tauto.
Qed.

Lemma bump_keys word freq :
  keysOf (bump word freq)
  = match valueAt word freq with
    | Some _ => keysOf freq
    | None => keysOf freq ++ [word]
    end.
Proof.
  induction freq as [|[k v] rest IH]; cbn [bump valueAt keysOf map fst app].
  - reflexivity.
  - destruct (str_eqb k word); cbn [map fst]; [reflexivity|].
    fold (keysOf (bump word rest)). rewrite IH.
    destruct (valueAt word rest); reflexivity.
Qed.

Lemma bump_valueAt word freq key :
  valueAt key (bump word freq)
  = if str_eqb word key
    then Some (match valueAt word freq with
               | Some v => addOne v
               | None => if includes inheritedNames word then NotANumber else Count 1
               end)
    else valueAt key freq.
Proof.
  induction freq as [|[k v] rest IH]; cbn [bump valueAt].
  - destruct (str_eqb word key); reflexivity.
  - destruct (str_eqb k word) eqn:Hkw; cbn [valueAt].
    + apply str_eqb_eq in Hkw. subst k.
      destruct (str_eqb word key); reflexivity.
    + rewrite IH. destruct (str_eqb k key) eqn:Hkk; [|reflexivity].
      apply str_eqb_eq in Hkk. subst k. now rewrite str_eqb_sym, Hkw.
Qed.

Lemma bump_NoDup word freq : NoDup (keysOf freq) -> NoDup (keysOf (bump word freq)).
Proof.
  intros Hnd. rewrite bump_keys. destruct (valueAt word freq) eqn:Hv; [exact Hnd|].
  apply valueAt_None_iff in Hv. apply NoDup_app; [exact Hnd|repeat constructor; simpl; tauto|].
  intros k Hk [<-|[]]. contradiction.
Qed.

(** What the loop has recorded after the words [seen]: one property per
    distinct word, holding its number of occurrences. *)
Definition recorded (seen : list jsstring) (freq : Frequencies) : Prop :=
  NoDup (keysOf freq)
  /\ forall key, valueAt key freq
                 = if includes seen key then Some (Count (occurrences key seen)) else None.

Lemma includes_app l1 l2 x : includes (l1 ++ l2) x = includes l1 x || includes l2 x.
Proof. unfold includes. apply existsb_app. Qed.

Lemma occurrences_app key l1 l2 :
  occurrences key (l1 ++ l2) = occurrences key l1 + occurrences key l2.
Proof. unfold occurrences. rewrite filter_app, List.length_app. lia. Qed.

Lemma occurrences_pos key seen : includes seen key = true -> 0 < occurrences key seen.
Proof.
  unfold includes, occurrences. intros H. apply existsb_exists in H as (x & Hx & He).
  assert (In x (filter (str_eqb key) seen)) by (apply filter_In; auto).
  destruct (filter (str_eqb key) seen); [contradiction|]. cbn [List.length]. lia.
Qed.

Lemma bump_recorded seen word freq :
  recorded seen freq ->
  includes inheritedNames word = false ->
  recorded (seen ++ [word]) (bump word freq).
Proof.
  intros [Hnd Hval] Hplain. split; [now apply bump_NoDup|].
  intros key. rewrite bump_valueAt, includes_app, occurrences_app, Hplain.
  unfold includes at 2. unfold occurrences at 2. cbn [existsb filter].
  rewrite orb_false_r, (str_eqb_sym key word).
  destruct (str_eqb word key) eqn:Hk.
  - apply str_eqb_eq in Hk. subst key. rewrite orb_true_r, Hval.
    destruct (includes seen word) eqn:Hin; cbn [addOne List.length].
    + do 2 f_equal.
    + do 2 f_equal. unfold occurrences.
      replace (filter (str_eqb word) seen) with (@nil jsstring); [reflexivity|].
      symmetry. apply UploaderFacts.filter_none. intros x Hx.
      destruct (str_eqb word x) eqn:He; [|reflexivity].
      unfold includes in Hin. rewrite <- Hin. symmetry. apply existsb_exists. eauto.
  - rewrite orb_false_r, Hval. cbn [List.length]. rewrite Z.add_0_r. reflexivity.
Qed.

Lemma inherited_proto : includes inheritedNames protoName = true.
Proof. reflexivity. Qed.

Lemma tally_recorded words : forall seen freq,
  recorded seen freq ->
  Forall (fun word => includes inheritedNames word = false) words ->
  recorded (seen ++ words) (tally words freq).
Proof.
  induction words as [|word words IH]; intros seen freq Hrec Hplain; cbn [tally].
  - now rewrite app_nil_r.
  - inversion Hplain as [|? ? Hw Hrest]; subst.
    assert (Hnp : str_eqb word protoName = false).
    { apply str_eqb_neq. intros ->. rewrite inherited_proto in Hw. discriminate. }
    rewrite Hnp. change (word :: words) with ([word] ++ words). rewrite app_assoc.
    apply IH; [|exact Hrest]. now apply bump_recorded.
Qed.

(** ** The entries, their order and the cut *)

Lemma insertIndex_perm entry sorted :
  Permutation (entry :: sorted) (insertIndex entry sorted).
Proof.
  induction sorted as [|other rest IH]; cbn [insertIndex]; [reflexivity|].
  destruct (_ <? _)%N; [reflexivity|].
  rewrite perm_swap. now apply perm_skip.
Qed.

Lemma sortIndices_perm entries : Permutation entries (sortIndices entries).
Proof.
  induction entries as [|entry rest IH]; cbn [sortIndices]; [reflexivity|].
  rewrite <- insertIndex_perm. now apply perm_skip.
Qed.

Lemma filter_partition_perm {A} (f : A -> bool) l :
  Permutation l (filter f l ++ filter (fun x => negb (f x)) l).
Proof.
  induction l as [|x l IH]; cbn [filter]; [reflexivity|].
  destruct (f x); cbn [negb app].
  - now apply perm_skip.
  - rewrite <- Permutation_middle. now apply perm_skip.
Qed.

Lemma entriesOf_perm freq : Permutation freq (entriesOf freq).
Proof.
  unfold entriesOf. rewrite <- sortIndices_perm.
  apply (filter_partition_perm (fun entry => isArrayIndex (fst entry))).
Qed.

Lemma insertByFrequency_perm entry sorted :
  Permutation (entry :: sorted) (insertByFrequency entry sorted).
Proof.
  induction sorted as [|other rest IH]; cbn [insertByFrequency]; [reflexivity|].
  destruct (goesBefore other entry); [|reflexivity].
  rewrite perm_swap. now apply perm_skip.
Qed.

Lemma sortByFrequency_perm entries : Permutation entries (sortByFrequency entries).
Proof.
  induction entries as [|entry rest IH]; cbn [sortByFrequency]; [reflexivity|].
  rewrite <- insertByFrequency_perm. now apply perm_skip.
Qed.

(** [a] may stand before [b]: [b] does not have to go first. *)
Definition mayPrecede (a b : jsstring * Frequency) : Prop := goesBefore b a = false.

Lemma insertByFrequency_sorted entry sorted :
  Forall (fun e => isCount (snd e) = true) (entry :: sorted) ->
  StronglySorted mayPrecede sorted ->
  StronglySorted mayPrecede (insertByFrequency entry sorted).
Proof.
  intros Hcount Hs. induction Hs as [|other rest Hs IH Hall]; cbn [insertByFrequency].
  - repeat constructor.
  - inversion Hcount as [|? ? He Hrest]; subst.
    inversion Hrest as [|? ? Ho Hrest']; subst.
    destruct (goesBefore other entry) eqn:Hgo.
    + constructor.
      * apply IH. now constructor.
      * apply (Permutation_Forall (insertByFrequency_perm entry rest)).
        constructor; [|exact Hall].
        unfold mayPrecede, goesBefore in *.
        destruct (snd entry), (snd other); try discriminate.
        apply Z.ltb_lt in Hgo. apply Z.ltb_ge. lia.
    + constructor; [now constructor|]. constructor; [exact Hgo|].
      rewrite Forall_forall in *. intros x Hx. specialize (Hall x Hx).
      specialize (Hrest' x Hx). unfold mayPrecede, goesBefore in *.
      cbv beta in *.
      destruct (snd entry), (snd other), (snd x); try discriminate.
      apply Z.ltb_ge in Hgo. apply Z.ltb_ge in Hall. apply Z.ltb_ge. lia.
Qed.

Lemma sortByFrequency_sorted entries :
  Forall (fun e => isCount (snd e) = true) entries ->
  StronglySorted mayPrecede (sortByFrequency entries).
Proof.
  induction entries as [|entry rest IH]; intros Hcount; cbn [sortByFrequency].
  - constructor.
  - inversion Hcount as [|? ? He Hrest]; subst.
    apply insertByFrequency_sorted; [|now apply IH].
    constructor; [exact He|].
    now apply (Permutation_Forall (sortByFrequency_perm rest)).
Qed.

Lemma sliceTo_firstn {A} (l : list A) stop :
  exists n, sliceTo l stop = firstn n l
            /\ (0 <= stop -> n = Z.to_nat (Z.min stop (Z.of_nat (List.length l)))).
Proof.
  unfold sliceTo. eexists. split; [reflexivity|]. intros Hs.
  now replace (stop <? 0) with false by (symmetry; apply Z.ltb_ge; lia).
Qed.

Lemma valueAt_In key v freq :
  NoDup (keysOf freq) -> In (key, v) freq -> valueAt key freq = Some v.
Proof.
  induction freq as [|[k v'] rest IH]; cbn [keysOf map fst In valueAt]; [tauto|].
  intros Hnd [Heq|Hin].
  - injection Heq as -> ->. now rewrite str_eqb_refl.
  - inversion Hnd as [|? ? Hk Hrest]; subst.
    destruct (str_eqb k key) eqn:He.
    + apply str_eqb_eq in He. subst k. exfalso. apply Hk.
      apply in_map_iff. exists (key, v). auto.
    + now apply IH.
Qed.

Lemma valueAt_Some_In key v freq : valueAt key freq = Some v -> In (key, v) freq.
Proof.
  induction freq as [|[k v'] rest IH]; cbn [valueAt In]; [discriminate|].
  destruct (str_eqb k key) eqn:He.
  - apply str_eqb_eq in He. subst k. intros [= ->]. now left.
  - intros H. right. now apply IH.
Qed.

Lemma includes_In l x : includes l x = true <-> In x l.
Proof.
  unfold includes. rewrite existsb_exists. split.
  - intros (y & Hy & He). apply str_eqb_eq in He. now subst.
  - intros H. exists x. split; [exact H|apply str_eqb_refl].
Qed.

Lemma recorded_entry seen freq key v :
  recorded seen freq -> In (key, v) freq ->
  In key seen /\ v = Count (occurrences key seen).
Proof.
  intros [Hnd Hval] Hin. apply (valueAt_In _ _ _ Hnd) in Hin.
  rewrite Hval in Hin. destruct (includes seen key) eqn:Hi; [|discriminate].
  apply includes_In in Hi. injection Hin as <-. auto.
Qed.

Lemma recorded_complete seen freq key :
  recorded seen freq -> In key seen ->
  In (key, Count (occurrences key seen)) freq.
Proof.
  intros [Hnd Hval] Hin. apply valueAt_Some_In. rewrite Hval.
  apply includes_In in Hin. now rewrite Hin.
Qed.

Lemma StronglySorted_app_inv {A} (R : A -> A -> Prop) l1 l2 :
  StronglySorted R (l1 ++ l2) ->
  StronglySorted R l1 /\ forall a b, In a l1 -> In b l2 -> R a b.
Proof.
  induction l1 as [|x l1 IH]; cbn [app]; intros Hs.
  - split; [constructor|]. intros a b [].
  - inversion Hs as [|? ? Hrest Hall]; subst. destruct (IH Hrest) as [Hs1 Hcross].
    split.
    + constructor; [exact Hs1|]. apply Forall_app in Hall. tauto.
    + intros a b [<-|Ha] Hb.
      * rewrite Forall_forall in Hall. apply Hall. apply in_or_app. now right.
      * now apply Hcross.
Qed.

Lemma NoDup_firstn {A} n (l : list A) : NoDup l -> NoDup (firstn n l).
Proof.
  intros H. rewrite <- (firstn_skipn n l) in H. now apply NoDup_app_remove_r in H.
Qed.

Section Host.
Variable toLowerCase : jsstring -> jsstring.

#[warning="-notation-for-abbreviation"]
Local Notation wordsOf := (wordsOf toLowerCase).
#[warning="-notation-for-abbreviation"]
Local Notation extractKeywords := (extractKeywords toLowerCase).

(** [a] occurs at least as often as [b]. *)
Definition moreFrequentIn (words : list jsstring) (a b : jsstring) : Prop :=
  occurrences b words <= occurrences a words.

(** X25: for a text none of whose words is a property name inherited from
    [Object.prototype], and [maxKeywords >= 0], [extractKeywords] returns at
    most [maxKeywords] distinct words of the text, ordered by non-increasing
    number of occurrences; a word of the text is left out only when the list is
    full, and then it occurs no more often than any keyword. *)
Theorem extractKeywords_most_frequent_words :
  forall (text : jsstring) (maxKeywords : Z),
    Forall (fun word => includes inheritedNames word = false) (wordsOf text) ->
    0 <= maxKeywords ->
    exists keywords,
      extractKeywords text maxKeywords = Some keywords
      /\ NoDup keywords
      /\ (forall k, In k keywords -> In k (wordsOf text))
      /\ Z.of_nat (List.length keywords) <= maxKeywords
      /\ StronglySorted (moreFrequentIn (wordsOf text)) keywords
      /\ (forall w, In w (wordsOf text) -> ~ In w keywords ->
            Z.of_nat (List.length keywords) = maxKeywords
            /\ forall k, In k keywords -> moreFrequentIn (wordsOf text) k w).
Proof.
  intros text maxKeywords Hplain Hmax.
  set (W := wordsOf text) in *.
  assert (Hrec : recorded W (tally W [])).
  { apply (tally_recorded W [] []); [|exact Hplain].
    split; [constructor|]. intros key. reflexivity. }
  set (F := tally W []) in *.
  set (S := sortByFrequency (entriesOf F)).
  assert (HpermS : Permutation F S).
  { unfold S. rewrite <- sortByFrequency_perm. apply entriesOf_perm. }
  assert (HentryF : forall key v, In (key, v) F ->
                                  In key W /\ v = Count (occurrences key W)).
  { intros key v. now apply recorded_entry. }
  assert (HentryS : forall key v, In (key, v) S ->
                                  In key W /\ v = Count (occurrences key W)).
  { intros key v Hin. apply HentryF. now apply (Permutation_in _ (Permutation_sym HpermS)). }
  assert (Hcounts : Forall (fun e => isCount (snd e) = true) (entriesOf F)).
  { apply (Permutation_Forall (entriesOf_perm F)). apply Forall_forall.
    intros [key v] Hin. destruct (HentryF key v Hin) as [_ ->]. reflexivity. }
  assert (Hcons : consistentComparator (entriesOf F) = true).
  { unfold consistentComparator. apply orb_true_iff. left.
    apply forallb_forall. now apply Forall_forall. }
  assert (Hsorted : StronglySorted mayPrecede S) by now apply sortByFrequency_sorted.
  destruct (sliceTo_firstn S maxKeywords) as (n & Hslice & Hn).
  specialize (Hn Hmax).
  exists (map fst (firstn n S)).
  assert (HndS : NoDup (map fst S)).
  { apply (Permutation_NoDup (Permutation_map fst HpermS)). apply Hrec. }
  rewrite <- (firstn_skipn n S) in Hsorted.
  apply StronglySorted_app_inv in Hsorted as [Hsorted1 Hcross].
  split; [|split; [|split; [|split; [|split]]]].
  - unfold Keywords.extractKeywords. fold W. fold F. rewrite Hcons. fold S.
    now rewrite Hslice.
  - rewrite <- firstn_map. now apply NoDup_firstn.
  - intros k Hk. apply in_map_iff in Hk as ([key v] & <- & Hin).
    apply (HentryS key v). rewrite <- (firstn_skipn n S). apply in_or_app. now left.
  - rewrite length_map, length_firstn. lia.
  - assert (Hsub : forall e, In e (firstn n S) -> In e S).
    { intros e He. rewrite <- (firstn_skipn n S). apply in_or_app. now left. }
    clear Hcross Hslice Hn. induction Hsorted1 as [|e l Hs IH Hall]; cbn [map].
    + constructor.
    + constructor.
      * apply IH. intros x Hx. apply Hsub. now right.
      * apply Forall_forall. intros k Hk. apply in_map_iff in Hk as (x & <- & Hx).
        rewrite Forall_forall in Hall. specialize (Hall x Hx).
        destruct e as [ke ve], x as [kx vx].
        destruct (HentryS ke ve (Hsub _ (or_introl eq_refl))) as [_ ->].
        destruct (HentryS kx vx (Hsub _ (or_intror Hx))) as [_ ->].
        unfold mayPrecede, goesBefore in Hall. cbn [snd fst] in *.
        apply Z.ltb_ge in Hall. exact Hall.
  - intros w Hw Hnot.
    pose proof (recorded_complete W F w Hrec Hw) as HinF.
    apply (Permutation_in _ HpermS) in HinF.
    rewrite <- (firstn_skipn n S) in HinF. apply in_app_or in HinF as [Hin|Hin].
    { exfalso. apply Hnot. apply in_map_iff. exists (w, Count (occurrences w W)). auto. }
    split.
    + rewrite length_map, length_firstn.
      assert (n < List.length S)%nat.
      { destruct (Nat.lt_ge_cases n (List.length S)) as [Hlt|Hge]; [exact Hlt|].
        rewrite skipn_all2 in Hin by exact Hge. destruct Hin. }
      lia.
    + intros k Hk. apply in_map_iff in Hk as ([key v] & <- & Hkin).
      specialize (Hcross _ _ Hkin Hin).
      destruct (HentryS key v) as [_ ->].
      { rewrite <- (firstn_skipn n S). apply in_or_app. now left. }
      unfold mayPrecede, goesBefore in Hcross. cbn [snd fst] in *.
      apply Z.ltb_ge in Hcross. exact Hcross.
Qed.

End Host.

Lemma splitLoop_chars (P : char -> Prop) s : forall inRun cur,
  (forall c, In c cur -> P c) ->
  (forall c, In c s -> isWhiteSpace c = false -> P c) ->
  forall piece, In piece (splitLoop inRun cur s) -> forall c, In c piece -> P c.
Proof.
  induction s as [|x s IH]; intros inRun cur Hcur Hs piece; cbn [splitLoop].
  - intros [<-|[]]. exact Hcur.
  - assert (Hs' : forall c, In c s -> isWhiteSpace c = false -> P c).
    { intros c Hc. apply Hs. now right. }
    destruct (isWhiteSpace x) eqn:Hx.
    + destruct inRun.
      * apply IH; assumption.
      * intros [<-|Hin]; [exact Hcur|].
        revert Hin. apply IH; [intros c []|assumption].
    + apply IH; [|assumption]. intros c Hc. apply in_app_or in Hc as [Hc|[<-|[]]].
      * now apply Hcur.
      * apply Hs; [now left|exact Hx].
Qed.

Lemma tally_keys words : forall freq key,
  In key (keysOf (tally words freq)) ->
  In key (keysOf freq) \/ (In key words /\ key <> protoName).
Proof.
  induction words as [|word words IH]; intros freq key; cbn [tally].
  - now left.
  - destruct (str_eqb word protoName) eqn:Hp.
    + intros H. destruct (IH _ _ H) as [Hk|[Hk Hne]]; [now left|].
      right. split; [now right|exact Hne].
    + apply str_eqb_neq in Hp. intros H.
      destruct (IH _ _ H) as [Hk|[Hk Hne]].
      * rewrite bump_keys in Hk. destruct (valueAt word freq); [now left|].
        apply in_app_or in Hk as [Hk|[<-|[]]]; [now left|].
        right. split; [now left|exact Hp].
      * right. split; [now right|exact Hne].
Qed.

Lemma tally_NoDup words : forall freq,
  NoDup (keysOf freq) -> NoDup (keysOf (tally words freq)).
Proof.
  induction words as [|word words IH]; intros freq Hnd; cbn [tally]; [exact Hnd|].
  apply IH. destruct (str_eqb word protoName); [exact Hnd|]. now apply bump_NoDup.
Qed.

Section Shape.
Variable toLowerCase : jsstring -> jsstring.

#[warning="-notation-for-abbreviation"]
Local Notation wordsOf := (wordsOf toLowerCase).
#[warning="-notation-for-abbreviation"]
Local Notation extractKeywords := (extractKeywords toLowerCase).

Lemma wordsOf_shape text word :
  In word (wordsOf text) ->
  3 < length word
  /\ ~ In word stopWords
  /\ forallb Language.isWordChar word = true.
Proof.
  unfold Keywords.wordsOf. intros Hin. apply filter_In in Hin as [Hin Hkeep].
  unfold keepWord in Hkeep. apply andb_true_iff in Hkeep as [Hlen Hstop].
  apply Z.ltb_lt in Hlen. apply negb_true_iff in Hstop.
  split; [exact Hlen|]. split.
  - intros Hs. apply includes_In in Hs. congruence.
  - apply forallb_forall. intros c Hc.
    revert c Hc. apply (splitLoop_chars (fun c => Language.isWordChar c = true)
                          (removePunctuation (toLowerCase text)) false [] ); [| |exact Hin].
    + intros c [].
    + intros c Hc Hws. unfold removePunctuation in Hc.
      apply filter_In in Hc as [_ Hc]. rewrite Hws, orb_false_r in Hc. exact Hc.
Qed.

(** X26: whatever the text, the keywords returned are distinct words of the
    lower-cased text without its punctuation: each is longer than 3 code
    units, is no stop word and is made of letters, digits and underscores; the
    word "__proto__" is never one of them; and for [maxKeywords >= 0] there are
    at most [maxKeywords]. *)
Theorem extractKeywords_keeps_long_plain_words :
  forall (text : jsstring) (maxKeywords : Z) (keywords : list jsstring),
    extractKeywords text maxKeywords = Some keywords ->
    NoDup keywords
    /\ (0 <= maxKeywords -> Z.of_nat (List.length keywords) <= maxKeywords)
    /\ forall k, In k keywords ->
         In k (wordsOf text)
         /\ 3 < length k
         /\ ~ In k stopWords
         /\ forallb Language.isWordChar k = true
         /\ k <> protoName.
Proof.
  intros text maxKeywords keywords. unfold Keywords.extractKeywords.
  set (F := tally (wordsOf text) []).
  destruct (consistentComparator (entriesOf F)); [|discriminate].
  intros [= <-].
  set (S := sortByFrequency (entriesOf F)).
  assert (HpermS : Permutation F S).
  { unfold S. rewrite <- sortByFrequency_perm. apply entriesOf_perm. }
  destruct (sliceTo_firstn S maxKeywords) as (n & -> & Hn).
  assert (HndS : NoDup (map fst S)).
  { apply (Permutation_NoDup (Permutation_map fst HpermS)).
    apply tally_NoDup. constructor. }
  split; [|split].
  - rewrite <- firstn_map. now apply NoDup_firstn.
  - intros Hmax. rewrite length_map, length_firstn, (Hn Hmax). lia.
  - intros k Hk. apply in_map_iff in Hk as (e & <- & Hin).
    assert (HinF : In (fst e) (keysOf F)).
    { apply in_map. apply (Permutation_in _ (Permutation_sym HpermS)).
      rewrite <- (firstn_skipn n S). apply in_or_app. now left. }
    apply tally_keys in HinF as [[]|[Hw Hne]].
    destruct (wordsOf_shape text (fst e) Hw) as (H1 & H2 & H3). auto.
Qed.

End Shape.

(** ** Runs on the sample host *)

Definition sampleKeywords := Keywords.extractKeywords SampleHost.toLowerCase.

Example extractKeywords_example :
  sampleKeywords (js "Cells divide. Cells grow; cells rest, plants grow.") 2
  = Some [js "cells"; js "grow"].
Proof. vm_compute. reflexivity. Qed.

(** Names that are array indices come first among equally frequent words. *)
Example extractKeywords_index_names_first :
  sampleKeywords (js "zebra 2024 2023 01234") 10
  = Some [js "2023"; js "2024"; js "zebra"; js "01234"].
Proof. vm_compute. reflexivity. Qed.

(** "constructor" is counted as no number; "__proto__" is not counted. *)
Example extractKeywords_inherited_names :
  sampleKeywords (js "constructor alpha") 10 = Some [js "constructor"; js "alpha"]
  /\ sampleKeywords (js "constructor alpha alpha beta") 10 = None
  /\ sampleKeywords (js "__proto__ alpha") 10 = Some [js "alpha"].
Proof. vm_compute. repeat split; reflexivity. Qed.

(** A negative [maxKeywords] drops that many keywords from the end. *)
Example extractKeywords_negative_max :
  sampleKeywords (js "Cells divide. Cells grow; cells rest, plants grow.") (-3)
  = Some [js "cells"; js "grow"].
Proof. vm_compute. reflexivity. Qed.

Lemma extractKeywords_most_frequent_words_witness :
  exists keywords,
    sampleKeywords (js "Cells divide. Cells grow; cells rest, plants grow.") 2
    = Some keywords
    /\ NoDup keywords
    /\ Z.of_nat (List.length keywords) <= 2.
Proof.
  destruct (extractKeywords_most_frequent_words SampleHost.toLowerCase
              (js "Cells divide. Cells grow; cells rest, plants grow.") 2)
    as (keywords & Hret & Hnd & _ & Hlen & _).
  - vm_compute. repeat constructor.
  - lia.
  - exists keywords. auto.
Defined.

Lemma extractKeywords_keeps_long_plain_words_witness :
  NoDup [js "cells"; js "grow"]
  /\ (0 <= 2 -> Z.of_nat (List.length [js "cells"; js "grow"]) <= 2).
Proof.
  destruct (extractKeywords_keeps_long_plain_words SampleHost.toLowerCase
              (js "Cells divide. Cells grow; cells rest, plants grow.") 2
              [js "cells"; js "grow"]) as (Hnd & Hlen & _).
  - vm_compute. reflexivity.
  - split; assumption.
Defined.

End KeywordsFacts.
